(** * A shallow embedding of [app/parser_enhanced.py] (card_holder)

    Python [str] values are modelled as lists of Unicode code points ([text]).
    The parts of the Python runtime the parser relies on but does not define
    (Unicode character tables, [str.lower], the [re.IGNORECASE] character
    equivalence, [dateutil.parser.parse] and the iteration order of a [set])
    are gathered in the record [PyRuntime]; the development is generic in it,
    and [env0] is a concrete instance used to evaluate the code at concrete
    inputs. *)

From Stdlib Require Import String Ascii ZArith List Bool QArith Lia Permutation.
Import ListNotations.
Open Scope Z_scope.

(** ** Text *)

Definition text := list Z.

(** ASCII literal of the source, as a list of code points. *)
Definition T (s : string) : text :=
  map (fun a => Z.of_nat (nat_of_ascii a)) (list_ascii_of_string s).

Definition RUPEE : Z := 8377.  (* ₹ *)
Definition EURO : Z := 8364.   (* € *)
Definition POUND : Z := 163.   (* £ *)
Definition NL : Z := 10.
Definition CR : Z := 13.
Definition SP : Z := 32.

Fixpoint text_eqb (a b : text) : bool :=
  match a, b with
  | [], [] => true
  | x :: a', y :: b' => Z.eqb x y && text_eqb a' b'
  | _, _ => false
  end.

(** [lst.startswith(p)] *)
Fixpoint prefixb (p s : text) : bool :=
  match p, s with
  | [], _ => true
  | x :: p', y :: s' => Z.eqb x y && prefixb p' s'
  | _ :: _, [] => false
  end.

(** [s.find(p, start)] on the suffix: index of the first occurrence, counted
    from the beginning of [s]; [None] stands for Python's [-1]. *)
Fixpoint find_from (p s : text) (i : nat) : option nat :=
  match s with
  | [] => if prefixb p [] then Some i else None
  | _ :: s' => if prefixb p s then Some i else find_from p s' (S i)
  end.

Definition py_find (s p : text) (start : nat) : option nat :=
  if Nat.ltb (length s) start then None else find_from p (skipn start s) start.

(** [p in s] for strings *)
Definition py_in (p s : text) : bool :=
  match find_from p s 0 with Some _ => true | None => false end.

(** Python slicing [s[a:b]] with non-negative bounds. *)
Definition slice (s : text) (a b : nat) : text := firstn (b - a) (skipn a s).

(** Python's [datetime.date], as (year, month, day). *)
Record date := mkdate { year : Z; month : Z; day : Z }.

(** ** The Python runtime the parser runs on *)
Record PyRuntime := {
  (** [str.isspace], which is also [re]'s [\s] on [str] patterns *)
  isspace : Z -> bool;
  (** Unicode decimal digits: [re]'s [\d], the digits [int]/[float] accept *)
  isdecimal : Z -> bool;
  decimal_value : Z -> Z;
  (** [str.isdigit] *)
  isdigit : Z -> bool;
  (** [str.isalnum]; [re]'s [\w] is [isalnum] or ['_'] *)
  isalnum : Z -> bool;
  (** [str.lower] *)
  lower : text -> text;
  (** character equivalence of [re.IGNORECASE] *)
  ci_eq : Z -> Z -> bool;
  (** [dateutil.parser.parse(s, fuzzy=f, dayfirst=d)]; [None] when it raises *)
  dateparse : bool -> bool -> text -> option date;
  (** iteration order of [set(l)] *)
  set_order : list text -> list text
}.

(** ** The [re] module

    A regular expression is matched by a list-of-successes backtracking
    matcher: [mt r cu cp] lists the ways [r] can match at cursor [cu], in the
    order in which Python's backtracking engine tries them, so that the first
    element is the match [re] reports. *)

Inductive regex :=
| Eps
| Lit (c : Z)                               (* a literal character *)
| Cls (p : Z -> bool)                       (* a character class *)
| Cat (r1 r2 : regex)
| Alt (r1 r2 : regex)                       (* r1|r2, left first *)
| Rep (r : regex) (lo : nat) (hi : option nat)  (* greedy r{lo,hi} *)
| Grp (n : nat) (r : regex)                 (* capturing group n *)
| WordB                                     (* \b *)
| Ahead (r : regex)                         (* (?=r) *)
| EndA.                                     (* $ *)

Record cur := mkcur { prev : option Z; rest : text; pos : nat }.

Definition caps := list (nat * text).

Definition init (s : text) : cur := mkcur None s 0.

Definition adv (cu : cur) (c : Z) (s : text) : cur := mkcur (Some c) s (S (pos cu)).

(** greedy repetition of the matcher [m1] *)
Fixpoint rep_greedy (m1 : cur -> caps -> list (cur * caps))
    (fuel lo : nat) (hi : option nat) (cu : cur) (cp : caps) : list (cur * caps) :=
  match fuel with
  | O => []
  | S f =>
      (match hi with
       | Some O => []
       | _ => flat_map (fun x => let '(cu1, cp1) := x in
                if Nat.eqb (pos cu1) (pos cu) then []
                else rep_greedy m1 f (pred lo) (option_map pred hi) cu1 cp1)
              (m1 cu cp)
       end)
      ++ (if Nat.eqb lo 0 then [(cu, cp)] else [])
  end.

Section Matcher.
Variable env : PyRuntime.
(** the [re.IGNORECASE] flag of the pattern *)
Variable icase : bool.

Definition isword (c : Z) : bool := isalnum env c || Z.eqb c 95.

Definition lit_eq (p c : Z) : bool := if icase then ci_eq env p c else Z.eqb p c.

Fixpoint mt (r : regex) (cu : cur) (cp : caps) {struct r} : list (cur * caps) :=
  match r with
  | Eps => [(cu, cp)]
  | Lit p =>
      match rest cu with
      | c :: s => if lit_eq p c then [(adv cu c s, cp)] else []
      | [] => []
      end
  | Cls f =>
      match rest cu with
      | c :: s => if f c then [(adv cu c s, cp)] else []
      | [] => []
      end
  | Cat r1 r2 => flat_map (fun x => let '(cu1, cp1) := x in mt r2 cu1 cp1) (mt r1 cu cp)
  | Alt r1 r2 => mt r1 cu cp ++ mt r2 cu cp
  | Rep r1 lo hi => rep_greedy (mt r1) (S (length (rest cu))) lo hi cu cp
  | Grp n r1 =>
      map (fun x => let '(cu1, cp1) := x in
             (cu1, (n, firstn (pos cu1 - pos cu) (rest cu)) :: cp1))
        (mt r1 cu cp)
  | WordB =>
      let a := match prev cu with Some c => isword c | None => false end in
      let b := match rest cu with c :: _ => isword c | [] => false end in
      if xorb a b then [(cu, cp)] else []
  | Ahead r1 => match mt r1 cu cp with [] => [] | _ => [(cu, cp)] end
  | EndA => match rest cu with [] => [(cu, cp)] | [c] => if Z.eqb c NL then [(cu, cp)] else [] | _ => [] end
  end.

(** the match [re] reports at a cursor *)
Definition match_at (r : regex) (cu : cur) : option (cur * caps) := hd_error (mt r cu []).

Definition step (cu : cur) : option cur :=
  match rest cu with c :: s => Some (adv cu c s) | [] => None end.

(** A match: start, end, captured groups, matched text. *)
Record rmatch := mkmatch { m_start : nat; m_end : nat; m_caps : caps; m_text : text }.

Definition mk_rmatch (cu cu1 : cur) (cp : caps) : rmatch :=
  mkmatch (pos cu) (pos cu1) cp (firstn (pos cu1 - pos cu) (rest cu)).

(** [re.finditer] *)
Fixpoint scan (fuel : nat) (r : regex) (cu : cur) : list rmatch :=
  match fuel with
  | O => []
  | S f =>
      match match_at r cu with
      | Some (cu1, cp) =>
          mk_rmatch cu cu1 cp ::
          (if Nat.eqb (pos cu1) (pos cu)
           then match step cu with Some cu2 => scan f r cu2 | None => [] end
           else scan f r cu1)
      | None => match step cu with Some cu2 => scan f r cu2 | None => [] end
      end
  end.

Definition finditer (r : regex) (s : text) : list rmatch := scan (S (length s)) r (init s).

(** [re.search] *)
Fixpoint search_loop (fuel : nat) (r : regex) (cu : cur) : option rmatch :=
  match fuel with
  | O => None
  | S f =>
      match match_at r cu with
      | Some (cu1, cp) => Some (mk_rmatch cu cu1 cp)
      | None => match step cu with Some cu2 => search_loop f r cu2 | None => None end
      end
  end.

Definition search (r : regex) (s : text) : option rmatch := search_loop (S (length s)) r (init s).

(** [re.sub] with a replacement computed from the groups *)
Fixpoint sub_loop (fuel : nat) (r : regex) (repl : caps -> text) (cu : cur) : text :=
  match fuel with
  | O => rest cu
  | S f =>
      match match_at r cu with
      | Some (cu1, cp) =>
          if Nat.eqb (pos cu1) (pos cu)
          then match rest cu with
               | c :: s => repl cp ++ c :: sub_loop f r repl (adv cu c s)
               | [] => repl cp
               end
          else repl cp ++ sub_loop f r repl cu1
      | None =>
          match rest cu with
          | c :: s => c :: sub_loop f r repl (adv cu c s)
          | [] => []
          end
      end
  end.

Definition sub (r : regex) (repl : caps -> text) (s : text) : text :=
  sub_loop (S (length s)) r repl (init s).

End Matcher.

(** group [n] of a match, [None] when it did not take part *)
Fixpoint group (n : nat) (cp : caps) : option text :=
  match cp with
  | [] => None
  | (k, t) :: cp' => if Nat.eqb k n then Some t else group n cp'
  end.

(** [m.group(n)] inside a replacement or [findall]: [""] when unmatched *)
Definition group_or_empty (n : nat) (cp : caps) : text :=
  match group n cp with Some t => t | None => [] end.

(** Concatenation of a list of patterns / a literal word. *)
Fixpoint cats (rs : list regex) : regex :=
  match rs with [] => Eps | [r] => r | r :: rs' => Cat r (cats rs') end.

Fixpoint alts (rs : list regex) : regex :=
  match rs with [] => Cls (fun _ => false) | [r] => r | r :: rs' => Alt r (alts rs') end.

Definition word (s : string) : regex := cats (map Lit (T s)).

Definition star (r : regex) : regex := Rep r 0 None.
Definition plus (r : regex) : regex := Rep r 1 None.
Definition opt (r : regex) : regex := Rep r 0 (Some 1%nat).
Definition rng (r : regex) (lo hi : nat) : regex := Rep r lo (Some hi).

Definition in_range (lo hi c : Z) : bool := (lo <=? c) && (c <=? hi).
Definition one_of (l : list Z) (c : Z) : bool := existsb (Z.eqb c) l.

(** ** Dates: [datetime.date], [timedelta] and [strftime("%Y-%m-%d")] *)

Definition is_leap (y : Z) : bool :=
  (Z.eqb (y mod 4) 0 && negb (Z.eqb (y mod 100) 0)) || Z.eqb (y mod 400) 0.

Definition days_in_month (y m : Z) : Z :=
  if Z.eqb m 2 then (if is_leap y then 29 else 28)
  else if one_of [4; 6; 9; 11] m then 30 else 31.

Definition valid_date (d : date) : bool :=
  in_range 1 9999 (year d) && in_range 1 12 (month d) && in_range 1 (days_in_month (year d) (month d)) (day d).

(** proleptic Gregorian day number (0 = 1970-01-01) *)
Definition days_from_civil (d : date) : Z :=
  let y := if month d <=? 2 then year d - 1 else year d in
  let era := y / 400 in
  let yoe := y - era * 400 in
  let mp := if month d >? 2 then month d - 3 else month d + 9 in
  let doy := (153 * mp + 2) / 5 + day d - 1 in
  let doe := yoe * 365 + yoe / 4 - yoe / 100 + doy in
  era * 146097 + doe - 719468.

Definition civil_from_days (z : Z) : date :=
  let z := z + 719468 in
  let era := z / 146097 in
  let doe := z - era * 146097 in
  let yoe := (doe - doe / 1460 + doe / 36524 - doe / 146096) / 365 in
  let y := yoe + era * 400 in
  let doy := doe - (365 * yoe + yoe / 4 - yoe / 100) in
  let mp := (5 * doy + 2) / 153 in
  let d := doy - (153 * mp + 2) / 5 + 1 in
  let m := if mp <? 10 then mp + 3 else mp - 9 in
  mkdate (if m <=? 2 then y + 1 else y) m d.

(** [d + timedelta(days=n)] *)
Definition add_days (d : date) (n : Z) : date := civil_from_days (days_from_civil d + n).

Definition digit_char (n : Z) : Z := 48 + n.

(** decimal digits of a non-negative integer, at least [w] of them *)
Fixpoint digits_pad (fuel : nat) (w : nat) (n : Z) : text :=
  match fuel with
  | O => []
  | S f =>
      if (n =? 0) && Nat.eqb w 0 then []
      else digits_pad f (pred w) (n / 10) ++ [digit_char (n mod 10)]
  end.

Definition zpad (w : nat) (n : Z) : text :=
  match digits_pad 20 w n with [] => [digit_char 0] | l => l end.

(** [d.strftime("%Y-%m-%d")] *)
Definition strftime (d : date) : text :=
  zpad 4 (year d) ++ [45] ++ zpad 2 (month d) ++ [45] ++ zpad 2 (day d).

(** ** Character classes of the patterns *)
Section Patterns.
Variable env : PyRuntime.

Definition dgt : regex := Cls (isdecimal env).          (* \d *)
Definition spc : regex := Cls (isspace env).            (* \s *)
Definition ascii_alpha (c : Z) : bool := in_range 65 90 c || in_range 97 122 c.

(** [RE_AMOUNT], compiled with [re.IGNORECASE]:
    "(?:₹|Rs\.?|INR|USD|EUR|[$€£])?\s*\d{1,3}(?:[,\s]\d{3})*(?:\.\d{1,2})?" *)
Definition RE_AMOUNT : regex :=
  cats [ opt (alts [ Lit RUPEE; Cat (word "Rs") (opt (Lit 46)); word "INR"; word "USD";
                     word "EUR"; Cls (one_of [36; EURO; POUND]) ]);
         star spc;
         rng dgt 1 3;
         star (Cat (Cls (fun c => Z.eqb c 44 || isspace env c)) (rng dgt 3 3));
         opt (Cat (Lit 46) (rng dgt 1 2)) ].

Definition date_sep : regex := Cls (fun c => one_of [47; 45; 46] c || isspace env c).

(** [RE_DATE]:
    "\b(?:\d{1,2}[\/\-\.\s]\d{1,2}[\/\-\.\s]\d{2,4}|[A-Za-z]{3,9}\s+\d{1,2},?\s*\d{0,4}|[A-Za-z]{3,9}\s+\d{4})\b" *)
Definition RE_DATE : regex :=
  cats [ WordB;
         alts [ cats [rng dgt 1 2; date_sep; rng dgt 1 2; date_sep; rng dgt 2 4];
                cats [rng (Cls ascii_alpha) 3 9; plus spc; rng dgt 1 2; opt (Lit 44); star spc; rng dgt 0 4];
                cats [rng (Cls ascii_alpha) 3 9; plus spc; rng dgt 4 4] ];
         WordB ].

(** [RE_LAST4], compiled with [re.IGNORECASE]:
    "(?:card\s*(?:no\.?|number|ending|ending\s*in|xx+)\s*[:\-]?\s*(?:x{2,}\s*){0,3}(\d{4})|\b(\d{4})\b)" *)
Definition RE_LAST4 : regex :=
  alts [ cats [ word "card"; star spc;
                alts [ Cat (word "no") (opt (Lit 46)); word "number"; word "ending";
                       cats [word "ending"; star spc; word "in"];
                       Cat (Lit 120) (plus (Lit 120)) ];
                star spc; opt (Cls (one_of [58; 45])); star spc;
                rng (Cat (Rep (Lit 120) 2 None) (star spc)) 0 3;
                Grp 1 (rng dgt 4 4) ];
         cats [ WordB; Grp 2 (rng dgt 4 4); WordB ] ].

(** "\d{1,3}(?:[,\s]\d{3})*(?:\.\d{1,2})?", the plain numbers next to a label *)
Definition RE_PLAIN_NUMBER : regex :=
  cats [ rng dgt 1 3;
         star (Cat (Cls (fun c => Z.eqb c 44 || isspace env c)) (rng dgt 3 3));
         opt (Cat (Lit 46) (rng dgt 1 2)) ].

(** "-?\d+(?:\.\d+)?" *)
Definition RE_NUMBER : regex := cats [opt (Lit 45); plus dgt; opt (Cat (Lit 46) (plus dgt))].

(** "(\d+)\s*\n\s*(\d{3}\.\d{2})" *)
Definition RE_SPLIT_AMOUNT : regex :=
  cats [ Grp 1 (plus dgt); star spc; Lit NL; star spc;
         Grp 2 (cats [rng dgt 3 3; Lit 46; rng dgt 2 2]) ].

(** "₹\s*₹" *)
Definition RE_DOUBLE_RUPEE : regex := cats [Lit RUPEE; star spc; Lit RUPEE].

(** the name-label character class [[\w\s\.\']] *)
Definition name_chr : regex :=
  Cls (fun c => isword env c || isspace env c || Z.eqb c 46 || Z.eqb c 39).

Definition colon_dash : regex := opt (Cls (one_of [58; 45])).

(** [RE_NAME_PATTERNS], searched with [re.IGNORECASE] *)
Definition RE_NAME_PATTERNS : list regex :=
  [ cats [ word "Customer"; star spc; word "Name"; star spc; colon_dash; star spc;
           Grp 1 (rng name_chr 2 60);
           Ahead (Cat (star spc) (alts [ word "Card"; word "A/c"; word "Account"; word "Statement";
                                         word "Period"; word "No"; word "Number"; EndA ])) ];
    cats [ word "Statement"; star spc; word "for"; star spc; colon_dash; star spc;
           Grp 1 (rng name_chr 2 60) ];
    cats [ word "Cardholder"; star spc; colon_dash; star spc; Grp 1 (rng name_chr 2 60) ];
    cats [ word "Name"; star spc; colon_dash; star spc; Grp 1 (rng name_chr 2 60) ] ].

(** "\b(Card|No|Number|Account|Statement|Period|Details)\b.*", with [re.IGNORECASE] *)
Definition RE_NAME_STOP : regex :=
  cats [ WordB;
         Grp 1 (alts [ word "Card"; word "No"; word "Number"; word "Account"; word "Statement";
                       word "Period"; word "Details" ]);
         WordB; star (Cls (fun c => negb (Z.eqb c NL))) ].

(** "\b(Mr\.?|Mrs\.?|Ms\.?)\s+[A-Z][a-zA-Z]+\s+[A-Z][a-zA-Z]+" *)
Definition RE_HONORIFIC : regex :=
  let upper := Cls (in_range 65 90) in
  let letters := plus (Cls ascii_alpha) in
  cats [ WordB;
         Grp 1 (alts [ Cat (word "Mr") (opt (Lit 46)); Cat (word "Mrs") (opt (Lit 46));
                       Cat (word "Ms") (opt (Lit 46)) ]);
         plus spc; upper; letters; plus spc; upper; letters ].

End Patterns.

(** ** Python floats *)

(** a [float] value, an IEEE 754 binary64: a sign and either the magnitude
    [m * 2^e] or infinity ([float()] of a digit string is never NaN) *)
Inductive double := DFin (neg : bool) (m e : Z) | DInf (neg : bool).

(** [num / den] rounded to the nearest integer, ties to even ([den > 0]) *)
Definition div_round_even (num den : Z) : Z :=
  let q := num / den in
  match Z.compare (2 * (num mod den)) den with
  | Lt => q
  | Gt => q + 1
  | Eq => if Z.even q then q else q + 1
  end.

(** the [k] with [2^k <= n / d < 2^(k+1)], for [n, d > 0] *)
Definition flog2 (n d : Z) : Z :=
  let l := Z.log2 n - Z.log2 d in
  if (if 0 <=? l then d * 2 ^ l <=? n else d <=? n * 2 ^ (- l)) then l else l - 1.

(** the binary64 value nearest to [n / d] ([n >= 0], [d > 0]) with the sign
    [neg], ties to even: 53 significant bits, no exponent below the
    subnormals', and infinity once the rounded magnitude reaches [2^1024] *)
Definition round64 (neg : bool) (n d : Z) : double :=
  if n =? 0 then DFin neg 0 0 else
  let e := Z.max (flog2 n d - 52) (-1074) in
  let m := if 0 <=? e then div_round_even n (d * 2 ^ e) else div_round_even (n * 2 ^ (- e)) d in
  if (0 <=? e) && (2 ^ 1024 <=? m * 2 ^ e) then DInf neg else DFin neg m e.

(** the rational [m * 2^e] *)
Definition mag (m e : Z) : Q :=
  if 0 <=? e then inject_Z (m * 2 ^ e) else m # Z.to_pos (2 ^ (- e)).

(** the value of a finite float *)
Definition fin_val (neg : bool) (m e : Z) : Q := if neg then Qopp (mag m e) else mag m e.

Definition Qltb (a b : Q) : bool := negb (Qle_bool b a).

(** [a < b] on floats *)
Definition dlt (a b : double) : bool :=
  match a, b with
  | DInf true, DInf true => false
  | DInf true, _ => true
  | _, DInf true => false
  | DInf false, _ => false
  | _, DInf false => true
  | DFin na ma ea, DFin nb mb eb => Qltb (fin_val na ma ea) (fin_val nb mb eb)
  end.

(** [a == b] on floats ([-0.0 == 0.0]) *)
Definition deq (a b : double) : bool :=
  match a, b with
  | DInf na, DInf nb => Bool.eqb na nb
  | DFin na ma ea, DFin nb mb eb => Qeq_bool (fin_val na ma ea) (fin_val nb mb eb)
  | _, _ => false
  end.

(** the place of a float in the order of [<]: [-inf], the finite values by
    their value, then [inf]; [key_ltb] and [key_eqb] compare places *)
Definition dkey (a : double) : Z * Q :=
  match a with
  | DInf true => (-1, 0%Q)
  | DFin neg m e => (0, fin_val neg m e)
  | DInf false => (1, 0%Q)
  end.

Definition key_ltb (x y : Z * Q) : bool := (fst x <? fst y) || ((fst x =? fst y) && Qltb (snd x) (snd y)).


(** ** Python helpers *)
Section PyHelpers.
Variable env : PyRuntime.

Fixpoint lstrip (s : text) : text :=
  match s with c :: s' => if isspace env c then lstrip s' else s | [] => [] end.

(** [s.strip()] *)
Definition py_strip (s : text) : text := rev (lstrip (rev (lstrip s))).

(** [int(s)] of a string of decimal digits *)
Definition py_int (s : text) : Z := fold_left (fun acc c => acc * 10 + decimal_value env c) s 0.

(** split at the first ['.'] *)
Fixpoint span_dot (s : text) : text * text :=
  match s with
  | [] => ([], [])
  | c :: s' => if Z.eqb c 46 then ([], s') else let '(a, b) := span_dot s' in (c :: a, b)
  end.

(** [float(s)] of a string matched by "-?\d+(?:\.\d+)?": the decimal
    [(ip * 10^k + fp) / 10^k] with its sign, correctly rounded to binary64 as
    CPython's [float] does *)
Definition py_float (s : text) : double :=
  let neg := match s with 45 :: _ => true | _ => false end in
  let s1 := if neg then tl s else s in
  let '(ip, fp) := span_dot s1 in
  let d := 10 ^ Z.of_nat (length fp) in
  round64 neg (py_int ip * d + py_int fp) d.

End PyHelpers.

(** decimal digits of a non-negative integer with [,] every three digits *)
Fixpoint group3 (fuel : nat) (n : Z) : text :=
  match fuel with
  | O => []
  | S f =>
      if n <? 1000 then digits_pad 20 1 n
      else group3 f (n / 1000) ++ [44] ++ zpad 3 (n mod 1000)
  end.

(** [f"₹{val:,.2f}"]: the exact value of the float rounded to cents, ties to
    even, after its sign (also for [-0.0]), the integer part with [,] every
    three digits (a finite float is below [2^1024 < 10^309]: at most 103
    groups), a dot and two digits; [inf] for infinity *)
Definition fmt_amount (v : double) : text :=
  match v with
  | DInf neg => [RUPEE] ++ (if neg then [45] else []) ++ T "inf"
  | DFin neg m e =>
      let cents := if 0 <=? e then m * 2 ^ e * 100 else div_round_even (m * 100) (2 ^ (- e)) in
      [RUPEE] ++ (if neg then [45] else []) ++
      group3 110 (cents / 100) ++ [46] ++ zpad 2 (cents mod 100)
  end.

(** Python's [max(xs, key=...)]: the first element whose key is maximal;
    [gt a b] is [key(a) > key(b)] *)
Definition py_max {A} (gt : A -> A -> bool) (x : A) (xs : list A) : A :=
  fold_left (fun best c => if gt c best then c else best) xs x.

(** ** [app/parser_enhanced.py] *)

Record issuer_conf := mkissuer { iname : text; ikeywords : list text; icycle_days : Z }.

(** [ISSUERS], in declaration order *)
Definition ISSUERS : list issuer_conf :=
  [ mkissuer (T "HDFC") [T "hdfc"] 30;
    mkissuer (T "ICICI") [T "icici"] 35;
    mkissuer (T "SBI") [T "sbi"; T "state bank of india"] 40;
    mkissuer (T "AXIS") [T "axis"] 45;
    mkissuer (T "KOTAK") [T "kotak"] 60 ].

Definition NA : text := T "N/A".

(** the labels [find_label_value] always adds to the caller's *)
Definition GENERIC_TOTAL_LABELS : list text :=
  map T [ "total amount due"; "amount due"; "total due"; "total outstanding";
          "new balance"; "balance due"; "statement balance"; "outstanding amount";
          "amount payable"; "payment due"; "total payment"; "amount to be paid";
          "total bill amount"; "amount outstanding"; "balance payable";
          "closing balance"; "total dues"; "due amount" ]%string.

Definition DUE_LABELS : list text :=
  map T ["payment due date"; "due date"; "pay by"; "payment date"]%string.

(** the labels [parse_statement] passes to [find_label_value] *)
Definition TOTAL_LABELS : list text :=
  map T ["total amount due"; "amount due"; "total due"; "new balance"; "amount payable"]%string.

(** the card types with their [t.lower()] *)
Definition CARD_TYPES : list (text * text) :=
  map (fun '(a, b) => (T a, T b))
    [ ("Platinum", "platinum"); ("Gold", "gold"); ("Classic", "classic");
      ("Signature", "signature"); ("World", "world"); ("Visa", "visa");
      ("Mastercard", "mastercard"); ("Titanium", "titanium"); ("Infinite", "infinite") ]%string.

(** [s.split(sep)] for a one-character separator *)
Fixpoint split_on (sep : Z) (s : text) : list text :=
  match s with
  | [] => [[]]
  | c :: s' =>
      if Z.eqb c sep then [] :: split_on sep s'
      else match split_on sep s' with
           | l :: ls => (c :: l) :: ls
           | [] => [[c]]
           end
  end.

(** [os.path.basename] *)
Definition basename (p : text) : text := last (split_on 47 p) [].

Fixpoint occ_loop (fuel : nat) (lbl s : text) (start : nat) : list nat :=
  match fuel with
  | O => []
  | S f =>
      match py_find s lbl start with
      | None => []
      | Some idx => idx :: occ_loop f lbl s (S idx)
      end
  end.

(** the [while True: idx = lower.find(lbl, start) ...] loop *)
Definition label_occurrences (lbl s : text) : list nat := occ_loop (S (S (length s))) lbl s 0.

(** an amount candidate of [find_label_value] *)
Record cand := mkcand {
  c_val : double; c_fmt : text; c_distance : Z; c_raw : text; c_label : text; c_pos : Z }.

(** [key(a) > key(b)] for [key=lambda c: (c["val"], -c["distance"])] *)
Definition cand_gt (a b : cand) : bool :=
  dlt (c_val b) (c_val a) || (deq (c_val a) (c_val b) && (c_distance a <? c_distance b)).

Definition is_some {A} (o : option A) : bool := match o with Some _ => true | None => false end.

Inductive jval :=
| JStr (s : text)
| JCycle (start end_ : text)          (* {"start": .., "end": ..} *)
| JList (l : list text).

(** [x or "N/A"] *)
Definition or_na (o : option text) : text :=
  match o with Some [] | None => NA | Some s => s end.

Section Parser.
Variable env : PyRuntime.

Definition clean_text (txt : text) : text :=
  let txt := sub env false (Lit CR) (fun _ => [NL]) txt in
  let txt := sub env false (RE_SPLIT_AMOUNT env)
               (fun cp => group_or_empty 1 cp ++ [44] ++ group_or_empty 2 cp) txt in
  let txt := sub env false (plus (spc env)) (fun _ => [SP]) txt in
  sub env false (RE_DOUBLE_RUPEE env) (fun _ => [RUPEE]) txt.

Definition detect_issuer (t : text) : text :=
  let low := lower env t in
  match find (fun conf => existsb (fun k => py_in k low) (ikeywords conf)) ISSUERS with
  | Some conf => iname conf
  | None => T "UNKNOWN"
  end.

Fixpoint name_loop (cleaned : text) (pats : list regex) : option text :=
  match pats with
  | [] =>
      match search env false (RE_HONORIFIC env) cleaned with
      | Some m => Some (py_strip env (m_text m))
      | None => None
      end
  | pat :: pats' =>
      match search env true pat cleaned with
      | Some m =>
          let name := py_strip env (sub env true RE_NAME_STOP (fun _ => [])
                                      (group_or_empty 1 (m_caps m))) in
          if Nat.ltb 2 (length name) && Nat.ltb (length name) 60 then Some name
          else name_loop cleaned pats'
      | None => name_loop cleaned pats'
      end
  end.

Definition find_customer_name (t : text) : option text :=
  let cleaned := sub env false (plus (Cls (one_of [CR; NL]))) (fun _ => [SP]) t in
  let cleaned := sub env false (Rep (spc env) 2 None) (fun _ => [SP]) cleaned in
  let cleaned := sub env true (cats [word "Customer"; plus (spc env); word "Name"])
                   (fun _ => T "Customer Name") cleaned in
  name_loop cleaned (RE_NAME_PATTERNS env).

(** [digits = a or b] for a [findall] tuple [(a, b)] *)
Definition match_digits (m : rmatch) : text :=
  let a := group_or_empty 1 (m_caps m) in
  let b := group_or_empty 2 (m_caps m) in
  match a with [] => b | _ => a end.

(** [digits and digits.isdigit() and not (1900 <= int(digits) <= 2100)] *)
Definition last4_accepts (digits : text) : bool :=
  negb (Nat.eqb (length digits) 0) && forallb (isdigit env) digits
  && negb (in_range 1900 2100 (py_int env digits)).

Fixpoint last4_loop (ms : list rmatch) : option text :=
  match ms with
  | [] => None
  | m :: ms' =>
      let digits := match_digits m in
      if last4_accepts digits then Some (skipn (length digits - 4)%nat digits)
      else last4_loop ms'
  end.

Definition find_last4 (t : text) : option text := last4_loop (finditer env true (RE_LAST4 env) t).

Definition clean_and_format_amount_candidate (raw : text) : option (double * text) :=
  match raw with
  | [] => None
  | _ =>
      let s := sub env false (Cls (fun c => negb (isdecimal env c || Z.eqb c 46 || Z.eqb c 45)))
                 (fun _ => []) raw in
      match s with
      | [] => None
      | _ =>
          match search env false (RE_NUMBER env) s with
          | None => None
          | Some m => let v := py_float env (m_text m) in Some (v, fmt_amount v)
          end
      end
  end.

(** the candidates a list of matches contributes, [abs_pos] computed by [pos_of] *)
Definition cands_of (lbl : text) (idx : nat) (pos_of : nat -> Z) (ms : list rmatch) : list cand :=
  flat_map (fun m =>
      match clean_and_format_amount_candidate (m_text m) with
      | Some (v, f) =>
          let abs_pos := pos_of (m_start m) in
          [mkcand v f (Z.abs (abs_pos - Z.of_nat idx)) (m_text m) lbl abs_pos]
      | None => []
      end) ms.

(** the candidates of one label occurrence: the window, then the suffix, then the prefix *)
Definition window_cands (t lbl : text) (idx : nat) : list cand :=
  let start_idx := (idx - 120)%nat in
  let end_idx := Nat.min (length t) (idx + length lbl + 300)%nat in
  let window := slice t start_idx end_idx in
  let suffix := slice t (idx + length lbl)%nat (idx + length lbl + 40)%nat in
  let prefix := slice t (idx - 40)%nat idx in
  cands_of lbl idx (fun st => Z.of_nat (start_idx + st)%nat) (finditer env true (RE_AMOUNT env) window)
  ++ cands_of lbl idx (fun st => Z.of_nat (idx + length lbl + st)%nat)
       (finditer env false (RE_PLAIN_NUMBER env) suffix)
  ++ cands_of lbl idx (fun st => Z.of_nat idx - 40 + Z.of_nat st)
       (finditer env false (RE_PLAIN_NUMBER env) prefix).

Definition label_positions (t : text) (labels : list text) : list (text * nat) :=
  let low := lower env t in
  let extended := set_order env (map (lower env) labels ++ GENERIC_TOTAL_LABELS) in
  flat_map (fun lbl => map (fun idx => (lbl, idx)) (label_occurrences lbl low)) extended.

(** the candidates pooled over all label occurrences *)
Definition pooled_candidates (t : text) (labels : list text) : list cand :=
  flat_map (fun '(lbl, idx) => window_cands t lbl idx) (label_positions t labels).

Definition find_label_value (t : text) (labels : list text) : option text :=
  match t with
  | [] => None
  | _ =>
      match label_positions t labels with
      | [] =>
          let cands := flat_map (fun m =>
                 match clean_and_format_amount_candidate (m_text m) with
                 | Some (v, f) => [(v, f, Z.of_nat (m_start m))]
                 | None => []
                 end) (finditer env true (RE_AMOUNT env) t) in
          match cands with
          | [] => None
          | c :: cs =>
              let '(_, f, _) := py_max (fun a b => dlt (fst (fst b)) (fst (fst a))) c cs in
              Some f
          end
      | _ =>
          match pooled_candidates t labels with
          | [] => None
          | c :: cs => Some (c_fmt (py_max cand_gt c cs))
          end
      end
  end.

Fixpoint first_valid_date (ds : list text) : option text :=
  match ds with
  | [] => None
  | d :: ds' =>
      match dateparse env true true d with
      | Some dt => if in_range 2020 2100 (year dt) then Some (strftime dt) else first_valid_date ds'
      | None => first_valid_date ds'
      end
  end.

(** [RE_DATE.findall(s)] *)
Definition date_tokens (s : text) : list text := map m_text (finditer env false (RE_DATE env) s).

Fixpoint due_loop (t : text) (lbls : list text) : option text :=
  match lbls with
  | [] => first_valid_date (date_tokens t)
  | lbl :: lbls' =>
      match py_find (lower env t) lbl 0 with
      | Some idx =>
          match first_valid_date (date_tokens (slice t idx (idx + 200)%nat)) with
          | Some r => Some r
          | None => due_loop t lbls'
          end
      | None => due_loop t lbls'
      end
  end.

Definition find_due_date_near_label (t : text) : option text := due_loop t DUE_LABELS.

(** [ISSUERS.get(issuer, {}).get("cycle_days", 30)] *)
Definition cycle_days (issuer : text) : Z :=
  match find (fun conf => text_eqb (iname conf) issuer) ISSUERS with
  | Some conf => icycle_days conf
  | None => 30
  end.

Definition generate_billing_cycle (issuer : text) (due : option text) : option (text * text) :=
  match due with
  | None | Some [] => None
  | Some s =>
      match dateparse env false false s with
      | None => None
      | Some dd => Some (strftime (add_days dd (- cycle_days issuer)), strftime dd)
      end
  end.

Fixpoint txn_loop (max_lines : nat) (acc : list text) (lns : list text) : list text :=
  match lns with
  | [] => rev acc
  | ln :: lns' =>
      if is_some (search env false (RE_DATE env) ln) && is_some (search env true (RE_AMOUNT env) ln)
      then let acc' := py_strip env ln :: acc in
           if Nat.leb max_lines (length acc') then rev acc' else txn_loop max_lines acc' lns'
      else txn_loop max_lines acc lns'
  end.

Definition extract_transactions_simple (t : text) (max_lines : nat) : list text :=
  txn_loop max_lines [] (split_on NL t).

Definition card_type_of (txt : text) : text :=
  match find (fun '(_, lo) => py_in lo (lower env txt)) CARD_TYPES with
  | Some (t, _) => t
  | None => NA
  end.

(** [parse_statement(path)], given the text [extract_text(path)] returned *)
Definition parse_statement (path raw : text) : list (string * jval) :=
  let txt := clean_text raw in
  let issuer := detect_issuer txt in
  let name := find_customer_name txt in
  let last4 := find_last4 txt in
  let due_date := find_due_date_near_label txt in
  let total_due := find_label_value txt TOTAL_LABELS in
  let billing := generate_billing_cycle issuer due_date in
  let card_type := card_type_of txt in
  let transactions := extract_transactions_simple txt 200 in
  [ ("file", JStr (basename path));
    ("issuer", JStr issuer);
    ("customer_name", JStr (or_na name));
    ("card_last4", JStr (or_na last4));
    ("card_type", JStr card_type);
    ("billing_cycle", match billing with Some (s, e) => JCycle s e | None => JStr NA end);
    ("payment_due_date", JStr (or_na due_date));
    ("total_amount_due", JStr (or_na total_due));
    ("transactions_preview", JList (firstn 20 transactions)) ]%string.

(** the candidates of [find_label_value] when no label occurs: (value,
    formatted value, match start) for every [RE_AMOUNT] match of the text *)
Definition fallback_cands (t : text) : list (double * text * Z) :=
  flat_map (fun m =>
      match clean_and_format_amount_candidate (m_text m) with
      | Some (v, f) => [(v, f, Z.of_nat (m_start m))]
      | None => []
      end) (finditer env true (RE_AMOUNT env) t).

(** the characters [clean_and_format_amount_candidate]'s [re.sub] keeps *)
Definition amount_char (c : Z) : bool := isdecimal env c || Z.eqb c 46 || Z.eqb c 45.

End Parser.

(** ** A concrete runtime

    [env_at today] classifies characters like CPython does on ASCII and Latin-1
    (decimal digits are the ASCII ones), lower-cases ASCII and Latin-1
    letters, iterates a [set] in first-occurrence order, and parses dates like
    [dateutil] 2.8 on the token shapes [RE_DATE] produces, [today] being the
    default date [dateutil] fills missing fields from. *)

Definition py_isspace (c : Z) : bool :=
  in_range 9 13 c || in_range 28 32 c || one_of [133; 160; 5760; 8232; 8233; 8239; 8287; 12288] c
  || in_range 8192 8202 c.

Definition ascii_digit (c : Z) : bool := in_range 48 57 c.

Definition latin1_upper (c : Z) : bool := in_range 192 222 c && negb (Z.eqb c 215).

Definition latin1_alnum (c : Z) : bool :=
  ascii_alpha c || ascii_digit c || one_of [170; 178; 179; 181; 185; 186; 188; 189; 190] c
  || (in_range 192 255 c && negb (one_of [215; 247] c)).

Definition lower_char (c : Z) : Z :=
  if in_range 65 90 c || latin1_upper c then c + 32 else c.

(** [set(l)] iterated in first-occurrence order *)
Fixpoint dedup (l : list text) : list text :=
  match l with
  | [] => []
  | x :: l' => x :: filter (fun y => negb (text_eqb x y)) (dedup l')
  end.

(** *** [dateutil.parser.parse] on date-like tokens *)

Inductive dtok := DWord (w : text) | DNum (n : text) | DSep (c : Z).

(** [dateutil]'s lexer: runs of letters, runs of digits, single other characters *)
Fixpoint dtokens (s : text) : list dtok :=
  match s with
  | [] => []
  | c :: s' =>
      let ts := dtokens s' in
      if ascii_alpha c then
        match ts with DWord w :: ts' => DWord (c :: w) :: ts' | _ => DWord [c] :: ts end
      else if ascii_digit c then
        match ts with DNum n :: ts' => DNum (c :: n) :: ts' | _ => DNum [c] :: ts end
      else DSep c :: ts
  end.

Definition MONTHS : list (list string) :=
  [["jan"; "january"]; ["feb"; "february"]; ["mar"; "march"]; ["apr"; "april"];
   ["may"]; ["jun"; "june"]; ["jul"; "july"]; ["aug"; "august"];
   ["sep"; "sept"; "september"]; ["oct"; "october"]; ["nov"; "november"];
   ["dec"; "december"]]%string.

Fixpoint index_of {A} (p : A -> bool) (l : list A) (i : Z) : option Z :=
  match l with [] => None | x :: l' => if p x then Some i else index_of p l' (i + 1) end.

Definition month_of (w : text) : option Z :=
  index_of (fun names => existsb (fun n => text_eqb (T n) (map lower_char w)) names) MONTHS 1.

(** words [dateutil] gives a meaning other than a month (weekdays, time and
    time-zone words, [jump] and [pertain] words); this model does not cover
    strings containing them and treats them as unparseable *)
Definition DATEUTIL_WORDS : list string :=
  ["mon"; "monday"; "tue"; "tuesday"; "wed"; "wednesday"; "thu"; "thursday";
   "fri"; "friday"; "sat"; "saturday"; "sun"; "sunday"; "at"; "on"; "and"; "ad";
   "m"; "t"; "of"; "st"; "nd"; "rd"; "th"; "am"; "pm"; "a"; "p"; "h"; "hour";
   "hours"; "minute"; "minutes"; "s"; "sec"; "second"; "seconds"; "utc"; "gmt";
   "z"; "ist"; "est"; "edt"; "cst"; "pst"]%string.

Definition dateutil_word (w : text) : bool :=
  existsb (fun n => text_eqb (T n) (map lower_char w)) DATEUTIL_WORDS.

(** [dateutil]'s [jump] separators and white space *)
Definition du_jump (c : Z) : bool := one_of [32; 46; 44; 59; 45; 47; 39] c || py_isspace c.

(** the [ymd] list: value and label (0 none, 1 year, 2 month), and whether a
    century was written *)
Fixpoint du_scan (fuzzy : bool) (ts : list dtok) (acc : list (Z * nat)) (cent : bool)
    : option (list (Z * nat) * bool) :=
  match ts with
  | [] => Some (rev acc, cent)
  | DSep c :: ts' => if du_jump c || fuzzy then du_scan fuzzy ts' acc cent else None
  | DWord w :: ts' =>
      match month_of w with
      | Some m =>
          if existsb (fun '(_, l) => Nat.eqb l 2) acc then None
          else du_scan fuzzy ts' ((m, 2%nat) :: acc) cent
      | None =>
          if dateutil_word w then None
          else if fuzzy then du_scan fuzzy ts' acc cent else None
      end
  | DNum n :: ts' =>
      let v := fold_left (fun a c => a * 10 + (c - 48)) n 0 in
      if Nat.leb (length n) 2 then du_scan fuzzy ts' ((v, 0%nat) :: acc) cent
      else if Nat.leb (length n) 4 then
        if existsb (fun '(_, l) => Nat.eqb l 1) acc then None
        else du_scan fuzzy ts' ((v, 1%nat) :: acc) true
      else None
  end.

Definition nthv (l : list (Z * nat)) (i : Z) : Z :=
  fst (nth (Z.to_nat (if i <? 0 then i + Z.of_nat (length l) else i)) l (0, 0%nat)).

Definition opt_eqb (o : option Z) (i : Z) : bool :=
  match o with Some j => Z.eqb i j | None => false end.

(** [_ymd.resolve_ymd(yearfirst=False, dayfirst)]: (year, month, day) *)
Definition resolve_ymd (vals : list (Z * nat)) (dayfirst : bool)
    : option (option Z * option Z * option Z) :=
  let n := length vals in
  let ystr := index_of (fun '(_, l) => Nat.eqb l 1) vals 0 in
  let mstr := index_of (fun '(_, l) => Nat.eqb l 2) vals 0 in
  let nstr := ((if is_some ystr then 1 else 0) + (if is_some mstr then 1 else 0))%nat in
  let v := nthv vals in
  if (Nat.eqb n nstr && Nat.ltb 0 n) || (Nat.eqb n 3 && Nat.eqb nstr 2) then
    (* _resolve_from_stridxs: the unlabelled member of three is the day *)
    let yi := match ystr with Some i => i | None => 0 end in
    let mi := match mstr with Some i => i | None => 0 end in
    Some (option_map v ystr, option_map v mstr,
          if Nat.eqb n 3 then Some (v (3 - yi - mi)) else None)
  else if Nat.ltb 3 n then None
  else if Nat.eqb n 1 || (is_some mstr && Nat.eqb n 2) then
    let mo := option_map v mstr in
    let other := match mstr with Some i => v (i - 1) | None => v 0 end in
    if Nat.ltb 1 n || negb (is_some mstr) then
      if other >? 31 then Some (Some other, mo, None) else Some (None, mo, Some other)
    else Some (None, mo, None)
  else if Nat.eqb n 2 then
    let a := v 0 in let b := v 1 in
    if a >? 31 then Some (Some a, Some b, None)
    else if b >? 31 then Some (Some b, Some a, None)
    else if dayfirst && (b <=? 12) then Some (None, Some b, Some a)
    else Some (None, Some a, Some b)
  else if Nat.eqb n 3 then
    let a := v 0 in let b := v 1 in let c := v 2 in
    if opt_eqb mstr 0 then
      (if b >? 31 then Some (Some b, Some a, Some c) else Some (Some c, Some a, Some b))
    else if opt_eqb mstr 1 then
      (if a >? 31 then Some (Some a, Some b, Some c) else Some (Some c, Some b, Some a))
    else if opt_eqb mstr 2 then
      (if b >? 31 then Some (Some b, Some c, Some a) else Some (Some a, Some c, Some b))
    else if (a >? 31) || opt_eqb ystr 0 then
      (if dayfirst && (c <=? 12) then Some (Some a, Some c, Some b) else Some (Some a, Some b, Some c))
    else if (a >? 12) || (dayfirst && (b <=? 12)) then Some (Some c, Some b, Some a)
    else Some (Some c, Some a, Some b)
  else Some (None, None, None).

(** [parserinfo.convertyear] *)
Definition convertyear (today : date) (y : Z) (cent : bool) : Z :=
  if (y <? 100) && negb cent then
    let y1 := y + (year today / 100) * 100 in
    if y1 >=? year today + 50 then y1 - 100
    else if y1 <? year today - 50 then y1 + 100 else y1
  else y.

(** [_build_naive] on the default [today]: a missing day is clamped to the
    month, an explicit invalid one raises *)
Definition du_build (today : date) (ymd : option Z * option Z * option Z) (cent : bool)
    : option date :=
  match ymd with
  | (None, None, None) => None
  | (y, m, d) =>
      let y' := match y with Some y => convertyear today y cent | None => year today end in
      let m' := match m with Some m => m | None => month today end in
      if negb (in_range 1 9999 y') || negb (in_range 1 12 m') then None
      else
        let d' := match d with Some d => d | None => Z.min (day today) (days_in_month y' m') end in
        if in_range 1 (days_in_month y' m') d' then Some (mkdate y' m' d') else None
  end.

Definition du_parse (today : date) (fuzzy dayfirst : bool) (s : text) : option date :=
  match du_scan fuzzy (dtokens s) [] false with
  | None => None
  | Some (vals, cent) =>
      match resolve_ymd vals dayfirst with
      | None => None
      | Some r => du_build today r cent
      end
  end.

Definition env_at (today : date) : PyRuntime := {|
  isspace := py_isspace;
  isdecimal := ascii_digit;
  decimal_value := fun c => c - 48;
  isdigit := fun c => ascii_digit c || one_of [178; 179; 185] c;
  isalnum := latin1_alnum;
  lower := map lower_char;
  ci_eq := fun a b => Z.eqb (lower_char a) (lower_char b);
  dateparse := du_parse today;
  set_order := dedup |}.

(** the runtime on 2026-10-18 *)
Definition env0 : PyRuntime := env_at (mkdate 2026 10 18).

(** the value of a key of the result record *)
Fixpoint field (r : list (string * jval)) (k : string) : option jval :=
  match r with
  | [] => None
  | (k', v) :: r' => if String.eqb k k' then Some v else field r' k
  end.

(** the keys of [parse_statement]'s record, in order *)
Definition RESULT_KEYS : list string :=
  ["file"; "issuer"; "customer_name"; "card_last4"; "card_type"; "billing_cycle";
   "payment_due_date"; "total_amount_due"; "transactions_preview"]%string.

(** [cu1] is [cu] moved forward over [pre] *)
Definition advances (cu cu1 : cur) : Prop :=
  exists pre, rest cu = pre ++ rest cu1 /\ pos cu1 = (pos cu + length pre)%nat.

(** the shape of a normalized text: every whitespace character is a single
    space, never next to another whitespace character; [good_from true s] also
    asks that [s] not start with whitespace *)
Fixpoint good_from (env : PyRuntime) (in_sp : bool) (s : text) : Prop :=
  match s with
  | [] => True
  | c :: s' =>
      if isspace env c then c = SP /\ in_sp = false /\ good_from env true s'
      else good_from env false s'
  end.

(** [key(a) > key(b)] for [key=lambda x: x[0]] on the fallback candidates *)
Definition trip_gt (a b : double * text * Z) : bool := dlt (fst (fst b)) (fst (fst a)).

(** a text with no Unicode decimal digit *)
Definition no_decimal (env : PyRuntime) (s : text) : Prop := forall c, In c s -> isdecimal env c = false.

(** ** [main.py]

    The FastAPI handlers, with [LAST_RESULTS] passed in and returned. *)

Section App.
Variable env : PyRuntime.

(** [p.rfind(c)] for a one-character [c]; [-1] when [c] does not occur *)
Fixpoint rfind_loop (c : Z) (s : text) (i acc : Z) : Z :=
  match s with
  | [] => acc
  | x :: s' => rfind_loop c s' (i + 1) (if Z.eqb x c then i else acc)
  end.

Definition py_rfind (c : Z) (s : text) : Z := rfind_loop c s 0 (-1).

(** [os.path.splitext] of posixpath: the extension starts at the last ['.']
    after the last ['/'], unless only dots precede it in the file name *)
Definition splitext (p : text) : text * text :=
  let sepIndex := py_rfind 47 p in
  let dotIndex := py_rfind 46 p in
  if sepIndex <? dotIndex then
    (* [while filenameIndex < dotIndex: if p[filenameIndex] != "." ...] *)
    if existsb (fun c => negb (Z.eqb c 46)) (slice p (Z.to_nat (sepIndex + 1)) (Z.to_nat dotIndex))
    then (firstn (Z.to_nat dotIndex) p, skipn (Z.to_nat dotIndex) p)
    else (p, [])
  else (p, []).

(** [s.endswith(suf)] *)
Definition endswith (s suf : text) : bool := prefixb (rev suf) (rev s).

(** [os.path.join(a, b)] of posixpath *)
Definition path_join (a b : text) : text :=
  if prefixb [47] b then b
  else match a with
       | [] => b
       | _ => if Z.eqb (last a 0) 47 then a ++ b else a ++ [47] ++ b
       end.

Definition result : Type := list (string * jval).

(** the banks [main.py] accepts *)
Definition SUPPORTED : list text := map T ["HDFC"; "ICICI"; "SBI"; "AXIS"; "KOTAK"]%string.

(** [r.get("issuer") in ["HDFC", "ICICI", "SBI", "AXIS", "KOTAK"]] *)
Definition issuer_supported (r : result) : bool :=
  match field r "issuer" with
  | Some (JStr s) => existsb (text_eqb s) SUPPORTED
  | _ => false
  end.

(** [f"{r.get('issuer')}"] *)
Definition issuer_str (r : result) : text :=
  match field r "issuer" with Some (JStr s) => s | _ => T "None" end.

(** the page [result.html] is rendered with *)
Inductive page :=
| ErrorPage (error : text)
| ResultPage (results : list result) (multiple : bool).

(** [upload]: [raw] is the text [extract_text] gets from the temporary copy
    [tmp_path] of the uploaded file; [last] is [LAST_RESULTS] *)
Definition upload (filename tmp_path raw : text) (last : list result) : page * list result :=
  let suffix := lower env (snd (splitext filename)) in
  if negb (text_eqb suffix (T ".pdf")) then (ErrorPage (T "Please upload a valid PDF file."), last)
  else
    let r := parse_statement env tmp_path raw in
    if negb (issuer_supported r)
    then (ErrorPage (T "Only HDFC, ICICI, SBI, AXIS, and KOTAK bank statements are supported."), last)
    else (ResultPage [r] false, [r]).

(** [process_zip]: [walk] lists the extracted files as [os.walk] visits them,
    as (root, file name, text [extract_text] gets from the file); [None] when
    the archive cannot be extracted *)
Definition process_zip (walk : option (list (text * text * text))) : list result :=
  match walk with
  | None => []
  | Some fs =>
      flat_map (fun '(root, f, raw) =>
          if endswith (lower env f) (T ".pdf") then [parse_statement env (path_join root f) raw] else [])
        fs
  end.

Definition parse_zip (filename : text) (walk : option (list (text * text * text))) (last : list result)
    : page * list result :=
  if negb (endswith (lower env filename) (T ".zip"))
  then (ErrorPage (T "Please upload a .zip file containing PDFs"), last)
  else
    let results := process_zip walk in
    match find (fun r => negb (issuer_supported r)) results with
    | Some r => (ErrorPage (T "Unsupported bank found in ZIP (" ++ issuer_str r ++
                            T "). Only HDFC, ICICI, SBI, AXIS, and KOTAK are supported."), last)
    | None => (ResultPage results true, results)
    end.

Inductive response :=
| NotFound (error : text)              (* [JSONResponse({"error": ..}, status_code=404)] *)
| JsonBody (results : list result)
| ServerError.                         (* HTTP 500: the handler raised *)

Definition download_json (last : list result) : response :=
  match last with [] => NotFound (T "No results available") | _ => JsonBody last end.

(** [download_csv]: with results, the rows are written to an [io.StringIO],
    which cannot fail, and then [FileResponse(path_or_file=..., ...)] is
    called; [FileResponse.__init__] takes the file as [path] and has no
    parameter [path_or_file], so the call raises [TypeError] and the request
    ends in an internal server error *)
Definition download_csv (last : list result) : response :=
  match last with
  | [] => NotFound (T "No results available")
  | _ => ServerError
  end.

End App.

(** * Properties *)

(** ** Dates and the billing cycle *)

Lemma strftime_not_nil : forall d, strftime d <> [].
Proof. intros d. unfold strftime. destruct (zpad 4 (year d)); simpl; discriminate. Qed.

Lemma or_na_strftime : forall d, or_na (Some (strftime d)) = strftime d.
Proof.
  intros d. unfold or_na. pose proof (strftime_not_nil d).
  destruct (strftime d); [congruence | reflexivity].
Qed.

Lemma generate_billing_cycle_due : forall env issuer d dd,
  dateparse env false false (strftime d) = Some dd ->
  generate_billing_cycle env issuer (Some (strftime d)) =
    Some (strftime (add_days dd (- cycle_days issuer)), strftime dd).
Proof.
  intros env issuer d dd H. unfold generate_billing_cycle.
  pose proof (strftime_not_nil d) as Hn.
  destruct (strftime d) as [|c s] eqn:E; [congruence|].
  rewrite H. reflexivity.
Qed.

(** the record's [billing_cycle] entry, read off the resolved due date *)
Lemma parse_statement_billing : forall env path raw,
  field (parse_statement env path raw) "billing_cycle" =
  Some (match generate_billing_cycle env (detect_issuer env (clean_text env raw))
                (find_due_date_near_label env (clean_text env raw)) with
        | Some (s, e) => JCycle s e
        | None => JStr NA
        end).
Proof. reflexivity. Qed.

Lemma parse_statement_due : forall env path raw,
  field (parse_statement env path raw) "payment_due_date" =
  Some (JStr (or_na (find_due_date_near_label env (clean_text env raw)))).
Proof. reflexivity. Qed.

(** C1 (amended): no billing cycle is read from statement-period dates: whenever
    the due-date resolver yields a date [d], the record's billing cycle ends on
    the record's payment due date [d] and starts [cycle_days issuer] days
    before it (30 by default), whatever other dates the text holds. *)
Theorem billing_cycle_from_due_date : forall env path raw d,
  find_due_date_near_label env (clean_text env raw) = Some (strftime d) ->
  dateparse env false false (strftime d) = Some d ->
  field (parse_statement env path raw) "payment_due_date" = Some (JStr (strftime d)) /\
  field (parse_statement env path raw) "billing_cycle" =
    Some (JCycle (strftime (add_days d (- cycle_days (detect_issuer env (clean_text env raw)))))
                 (strftime d)).
Proof.
  intros env path raw d Hdue Hparse. split.
  - rewrite parse_statement_due, Hdue, or_na_strftime. reflexivity.
  - rewrite parse_statement_billing, Hdue.
    rewrite (generate_billing_cycle_due env _ d d Hparse). reflexivity.
Qed.

Lemma billing_cycle_from_due_date_witness :
  (find_due_date_near_label env0 (clean_text env0 (T "Statement Period: 01/01/2024 - 31/01/2024"))
     = Some (strftime (mkdate 2024 1 1)) /\
   dateparse env0 false false (strftime (mkdate 2024 1 1)) = Some (mkdate 2024 1 1)) /\
  field (parse_statement env0 (T "a.pdf") (T "Statement Period: 01/01/2024 - 31/01/2024"))
    "billing_cycle" = Some (JCycle (T "2023-12-02") (T "2024-01-01")).
Proof.
  assert (H1 : find_due_date_near_label env0
                 (clean_text env0 (T "Statement Period: 01/01/2024 - 31/01/2024"))
               = Some (strftime (mkdate 2024 1 1))) by (vm_compute; reflexivity).
  assert (H2 : dateparse env0 false false (strftime (mkdate 2024 1 1)) = Some (mkdate 2024 1 1))
    by (vm_compute; reflexivity).
  split; [split; assumption|].
  destruct (billing_cycle_from_due_date env0 (T "a.pdf")
              (T "Statement Period: 01/01/2024 - 31/01/2024") (mkdate 2024 1 1) H1 H2) as [_ ->].
  vm_compute. reflexivity.
Defined.

(** C1 (counterexample): the two statement-period dates of
    "Statement Period: 01/01/2024 - 31/01/2024", 30 days apart, are not the
    billing cycle: the cycle is the 30 days ending on the first date. *)
Lemma statement_period_ignored :
  field (parse_statement env0 (T "a.pdf") (T "Statement Period: 01/01/2024 - 31/01/2024"))
    "billing_cycle" = Some (JCycle (T "2023-12-02") (T "2024-01-01")) /\
  field (parse_statement env0 (T "a.pdf") (T "Statement Period: 01/01/2024 - 31/01/2024"))
    "billing_cycle" <> Some (JCycle (T "2024-01-01") (T "2024-01-31")).
Proof. vm_compute. split; [reflexivity | discriminate]. Qed.

(** C5 (amended): with no resolved due date the record has no billing cycle;
    with a resolved due date [d] the cycle is [(d - cycle_days issuer, d)],
    where [cycle_days] is the profile's length and 30 for an issuer with no
    profile, [UNKNOWN] included. *)
Theorem synthetic_cycle_default_length : forall env path raw,
  (find_due_date_near_label env (clean_text env raw) = None ->
   field (parse_statement env path raw) "billing_cycle" = Some (JStr NA)) /\
  (forall d, find_due_date_near_label env (clean_text env raw) = Some (strftime d) ->
   dateparse env false false (strftime d) = Some d ->
   field (parse_statement env path raw) "billing_cycle" =
     Some (JCycle (strftime (add_days d (- cycle_days (detect_issuer env (clean_text env raw)))))
                  (strftime d))) /\
  cycle_days (T "UNKNOWN") = 30 /\
  Forall (fun conf => cycle_days (iname conf) = icycle_days conf) ISSUERS.
Proof.
  intros env path raw. split; [|split; [|split]].
  - intros H. rewrite parse_statement_billing, H. reflexivity.
  - intros d Hdue Hparse. rewrite parse_statement_billing, Hdue.
    rewrite (generate_billing_cycle_due env _ d d Hparse). reflexivity.
  - reflexivity.
  - repeat constructor.
Qed.

(** C5 (counterexample): "Statement: 05/03/2024" is classified [UNKNOWN], an
    issuer with no profile, and still gets the 30-day cycle ending on its due date. *)
Lemma unknown_issuer_gets_cycle :
  field (parse_statement env0 (T "a.pdf") (T "Statement: 05/03/2024")) "issuer"
    = Some (JStr (T "UNKNOWN")) /\
  find (fun conf => text_eqb (iname conf) (T "UNKNOWN")) ISSUERS = None /\
  field (parse_statement env0 (T "a.pdf") (T "Statement: 05/03/2024")) "billing_cycle"
    = Some (JCycle (T "2024-02-04") (T "2024-03-05")).
Proof. vm_compute. repeat split. Qed.

(** ** The due-date resolver on a word followed by a day number *)

(** C3 (the divergence): in "Statement 05/03/2024" the only date is
    2024-03-05 and no due label occurs, yet the alternative of [RE_DATE] meant
    for "Mon DD[, YYYY]" matches the word and the day, "Statement 05"; the fuzzy
    parse of that token is day 5 of the month the program runs in, and it is
    the date resolved: on 2026-10-18 it is 2026-10-05, on 2025-01-01 it is
    2025-01-05, never 2024-03-05. *)
Theorem due_date_fuzzy_month_word :
  date_tokens env0 (clean_text env0 (T "Statement 05/03/2024")) = [T "Statement 05"] /\
  dateparse env0 true true (T "05/03/2024") = Some (mkdate 2024 3 5) /\
  field (parse_statement env0 (T "a.pdf") (T "Statement 05/03/2024")) "payment_due_date"
    = Some (JStr (T "2026-10-05")) /\
  field (parse_statement (env_at (mkdate 2025 1 1)) (T "a.pdf") (T "Statement 05/03/2024"))
    "payment_due_date" = Some (JStr (T "2025-01-05")).
Proof. vm_compute. repeat split. Qed.

(** ** The card suffix *)

Lemma last4_loop_spec : forall env ms d,
  last4_loop env ms = Some d ->
  exists pre m post, ms = pre ++ m :: post /\
    Forall (fun m' => last4_accepts env (match_digits m') = false) pre /\
    last4_accepts env (match_digits m) = true /\
    d = skipn (length (match_digits m) - 4) (match_digits m).
Proof.
  intros env ms d. induction ms as [|m ms IH]; simpl; [discriminate|].
  destruct (last4_accepts env (match_digits m)) eqn:Hacc.
  - intros H. injection H as <-. exists [], m, ms. auto.
  - intros H. destruct (IH H) as (pre & m' & post & -> & Hpre & Hm' & Hd).
    exists (m :: pre), m', post. auto.
Qed.

Lemma last4_accepts_not_year : forall env s,
  last4_accepts env s = true -> ~ (1900 <= py_int env s <= 2100).
Proof.
  intros env s H Hr. unfold last4_accepts, in_range in H.
  apply andb_prop in H as [_ H]. apply negb_true_iff in H.
  apply andb_false_iff in H as [H | H]; apply Z.leb_gt in H; lia.
Qed.

(** C6 (amended): the matches of [RE_LAST4] are scanned in document order, and
    the calendar-year rejection applies to the digits of both alternatives:
    the result is the last four digits of the first match whose digits,
    explicit phrase or bare run, are not a year in 1900..2100.
    "Card No: XXXX XXXX XXXX 4321" gives "4321", while "2024" and
    "Card No: XXXX XXXX XXXX 2024" give nothing. *)
Theorem last4_year_rejection_both_forms :
  (forall env t d, find_last4 env t = Some d ->
   exists pre m post, finditer env true (RE_LAST4 env) t = pre ++ m :: post /\
     Forall (fun m' => last4_accepts env (match_digits m') = false) pre /\
     d = skipn (length (match_digits m) - 4) (match_digits m) /\
     ~ (1900 <= py_int env (match_digits m) <= 2100)) /\
  find_last4 env0 (T "Card No: XXXX XXXX XXXX 4321") = Some (T "4321") /\
  find_last4 env0 (T "2024") = None /\
  find_last4 env0 (T "Card No: XXXX XXXX XXXX 2024") = None.
Proof.
  split; [|vm_compute; repeat split].
  intros env t d H. unfold find_last4 in H.
  destruct (last4_loop_spec env _ d H) as (pre & m & post & Hms & Hpre & Hacc & Hd).
  exists pre, m, post. repeat split; auto. apply last4_accepts_not_year. exact Hacc.
Qed.

(** C6 (counterexample): in "Card No: XXXX XXXX XXXX 2024" the explicit card
    number phrase captures "2024" (group 1), and no suffix is returned. *)
Lemma explicit_last4_year_rejected :
  map (fun m => group_or_empty 1 (m_caps m))
      (finditer env0 true (RE_LAST4 env0) (T "Card No: XXXX XXXX XXXX 2024")) = [T "2024"] /\
  find_last4 env0 (T "Card No: XXXX XXXX XXXX 2024") = None.
Proof. vm_compute. split; reflexivity. Qed.

(** ** The amount split over lines *)

(** C9: "Total Amount Due\n12\n543.89" is normalized to
    "Total Amount Due 12,543.89", and the total-due resolver gives 12543.89
    formatted, "₹12,543.89", as for the unbroken text. *)
Theorem split_amount_repaired :
  clean_text env0 (T "Total Amount Due
12
543.89") = T "Total Amount Due 12,543.89" /\
  find_label_value env0 (clean_text env0 (T "Total Amount Due
12
543.89")) TOTAL_LABELS = Some (RUPEE :: T "12,543.89") /\
  find_label_value env0 (clean_text env0 (T "Total Amount Due 12,543.89")) TOTAL_LABELS
    = Some (RUPEE :: T "12,543.89").
Proof. vm_compute. repeat split. Qed.

(** ** The transactions preview *)

(** C10 (counterexample): "05/03/2024 Rs 500 " is its own normalized text;
    the single preview entry drops its trailing space. *)
Lemma preview_entry_stripped :
  clean_text env0 (T "05/03/2024 Rs 500 ") = T "05/03/2024 Rs 500 " /\
  field (parse_statement env0 (T "a.pdf") (T "05/03/2024 Rs 500 ")) "transactions_preview"
    = Some (JList [T "05/03/2024 Rs 500"]).
Proof. vm_compute. split; reflexivity. Qed.

(** ** Issuer classification *)

Lemma find_first : forall {A} (f : A -> bool) l x,
  find f l = Some x ->
  exists pre post, l = pre ++ x :: post /\ Forall (fun y => f y = false) pre /\ f x = true.
Proof.
  intros A f l x. induction l as [|y l IH]; simpl; [discriminate|].
  destruct (f y) eqn:Hy.
  - intros H. injection H as <-. exists [], l. auto.
  - intros H. destruct (IH H) as (pre & post & -> & Hpre & Hx).
    exists (y :: pre), post. auto.
Qed.

Lemma issuer_matches_iff : forall low conf,
  existsb (fun k => py_in k low) (ikeywords conf) = true <->
  exists k, In k (ikeywords conf) /\ py_in k low = true.
Proof. intros low conf. apply existsb_exists. Qed.

(** C7: [detect_issuer] tests the profiles of [ISSUERS] in declaration order
    for a keyword contained in the lower-cased text and returns the name of the
    first one that has one, [UNKNOWN] when none has; so a text containing a
    keyword of one issuer and none of another issuer is classified as that
    issuer, and a text containing no keyword as [UNKNOWN]. *)
Theorem detect_issuer_declaration_order :
  (forall env t,
     (detect_issuer env t = T "UNKNOWN" /\
      forall conf k, In conf ISSUERS -> In k (ikeywords conf) -> py_in k (lower env t) = false) \/
     (exists pre conf post, ISSUERS = pre ++ conf :: post /\
        (forall c k, In c pre -> In k (ikeywords c) -> py_in k (lower env t) = false) /\
        (exists k, In k (ikeywords conf) /\ py_in k (lower env t) = true) /\
        detect_issuer env t = iname conf)) /\
  (forall env t conf k, In conf ISSUERS -> In k (ikeywords conf) -> py_in k (lower env t) = true ->
     (forall c k', In c ISSUERS -> iname c <> iname conf -> In k' (ikeywords c) ->
        py_in k' (lower env t) = false) ->
     detect_issuer env t = iname conf) /\
  (forall env t,
     (forall c k, In c ISSUERS -> In k (ikeywords c) -> py_in k (lower env t) = false) ->
     detect_issuer env t = T "UNKNOWN").
Proof.
  split; [|split].
  - intros env t. unfold detect_issuer.
    destruct (find _ ISSUERS) as [conf|] eqn:Hf.
    + right. destruct (find_first _ _ _ Hf) as (pre & post & Heq & Hpre & Hc).
      exists pre, conf, post. split; [exact Heq|]. split; [|split; [|reflexivity]].
      * intros c k Hin Hk. rewrite Forall_forall in Hpre. specialize (Hpre c Hin).
        destruct (py_in k (lower env t)) eqn:E; [|reflexivity].
        assert (existsb (fun k => py_in k (lower env t)) (ikeywords c) = true)
          by (apply issuer_matches_iff; eauto).
        congruence.
      * apply issuer_matches_iff. exact Hc.
    + left. split; [reflexivity|]. intros conf k Hin Hk.
      pose proof (find_none _ _ Hf conf Hin) as Hn.
      destruct (py_in k (lower env t)) eqn:E; [|reflexivity].
      assert (existsb (fun k => py_in k (lower env t)) (ikeywords conf) = true)
        by (apply issuer_matches_iff; eauto).
      congruence.
  - intros env t conf k Hin Hk Hp Hother. unfold detect_issuer.
    destruct (find _ ISSUERS) as [c|] eqn:Hf.
    + destruct (find_first _ _ _ Hf) as (pre & post & Heq & _ & Hc).
      apply issuer_matches_iff in Hc as (k' & Hk' & Hp').
      destruct (list_eq_dec Z.eq_dec (iname c) (iname conf)) as [E|E]; [exact E|].
      assert (In c ISSUERS) by (rewrite Heq; apply in_elt).
      rewrite (Hother c k' H E Hk') in Hp'. discriminate.
    + pose proof (find_none _ _ Hf conf Hin) as Hn. cbv beta in Hn.
      rewrite (proj2 (issuer_matches_iff _ conf) (ex_intro _ k (conj Hk Hp))) in Hn.
      discriminate.
  - intros env t Hnone. unfold detect_issuer.
    destruct (find _ ISSUERS) as [c|] eqn:Hf; [|reflexivity].
    destruct (find_first _ _ _ Hf) as (pre & post & Heq & _ & Hc).
    apply issuer_matches_iff in Hc as (k & Hk & Hp).
    rewrite (Hnone c k) in Hp; [discriminate | rewrite Heq; apply in_elt | exact Hk].
Qed.

Lemma detect_issuer_declaration_order_witness :
  In (mkissuer (T "HDFC") [T "hdfc"] 30) ISSUERS /\
  detect_issuer env0 (T "HDFC Bank Statement") = T "HDFC".
Proof.
  assert (Hin : In (mkissuer (T "HDFC") [T "hdfc"] 30) ISSUERS) by (simpl; left; reflexivity).
  split; [exact Hin|].
  apply (proj1 (proj2 detect_issuer_declaration_order) env0 (T "HDFC Bank Statement")
           (mkissuer (T "HDFC") [T "hdfc"] 30) (T "hdfc") Hin).
  - simpl. left. reflexivity.
  - vm_compute. reflexivity.
  - intros c k Hc Hn Hk. simpl in Hc.
    destruct Hc as [<-|[<-|[<-|[<-|[<-|[]]]]]];
      [exfalso; apply Hn; reflexivity | ..];
      simpl in Hk; repeat destruct Hk as [<-|Hk]; try contradiction;
      vm_compute; reflexivity.
Defined.

(** ** The record on the empty text *)

Lemma clean_text_nil : forall env, clean_text env [] = [].
Proof. intros env. reflexivity. Qed.

(** C8: every record [parse_statement] returns has the nine keys, in order; on
    the empty text (with a [lower] that maps the empty text to itself) the
    issuer is [UNKNOWN], every other field is the placeholder "N/A" and the
    transactions preview is empty. *)
Theorem parse_statement_keys_and_empty :
  (forall env path raw, map fst (parse_statement env path raw) = RESULT_KEYS) /\
  (forall env path, lower env [] = [] ->
   parse_statement env path [] =
     [("file", JStr (basename path)); ("issuer", JStr (T "UNKNOWN"));
      ("customer_name", JStr NA); ("card_last4", JStr NA); ("card_type", JStr NA);
      ("billing_cycle", JStr NA); ("payment_due_date", JStr NA);
      ("total_amount_due", JStr NA); ("transactions_preview", JList [])]%string).
Proof.
  split.
  - reflexivity.
  - intros env path H. unfold parse_statement. rewrite clean_text_nil.
    unfold detect_issuer, card_type_of, find_due_date_near_label.
    cbn [due_loop DUE_LABELS map]. rewrite H. reflexivity.
Qed.

Lemma parse_statement_keys_and_empty_witness :
  lower env0 [] = [] /\
  field (parse_statement env0 (T "statements/a.pdf") []) "file" = Some (JStr (T "a.pdf")).
Proof.
  assert (H : lower env0 [] = []) by reflexivity.
  split; [exact H|].
  rewrite (proj2 parse_statement_keys_and_empty env0 (T "statements/a.pdf") H).
  vm_compute. reflexivity.
Defined.

(** ** [max] with a key *)

Section PyMax.
Context {A : Type} (gt : A -> A -> bool).
Hypothesis gt_irrefl : forall a, gt a a = false.
Hypothesis gt_trans : forall a b c, gt a b = true -> gt b c = true -> gt a c = true.

Lemma py_max_in : forall x xs, py_max gt x xs = x \/ In (py_max gt x xs) xs.
Proof.
  intros x xs. unfold py_max. revert x.
  induction xs as [|c xs IH]; intros x; simpl; [left; reflexivity|].
  destruct (gt c x).
  - destruct (IH c) as [-> | H]; right; [left; reflexivity | right; exact H].
  - destruct (IH x) as [-> | H]; [left; reflexivity | right; right; exact H].
Qed.

Lemma fold_max_upper : forall xs best y,
  gt y best = false \/ In y xs ->
  gt y (fold_left (fun best c => if gt c best then c else best) xs best) = false.
Proof.
  induction xs as [|c xs IH]; intros best y Hy; simpl.
  - destruct Hy as [Hy | []]. exact Hy.
  - apply IH.
    destruct Hy as [Hy | [<- | Hy]]; [left | left | right; exact Hy].
    + destruct (gt c best) eqn:Hc; [|exact Hy].
      destruct (gt y c) eqn:Hyc; [|reflexivity].
      rewrite (gt_trans _ _ _ Hyc Hc) in Hy. discriminate.
    + destruct (gt c best) eqn:Hc; [apply gt_irrefl | exact Hc].
Qed.

(** no element is strictly greater than [max]'s result *)
Lemma py_max_upper : forall x xs y, In y (x :: xs) -> gt y (py_max gt x xs) = false.
Proof.
  intros x xs y [<- | Hy]; apply fold_max_upper; [left; apply gt_irrefl | right; exact Hy].
Qed.

End PyMax.

Lemma Qltb_true : forall a b, Qltb a b = true <-> (a < b)%Q.
Proof.
  intros a b. unfold Qltb. rewrite negb_true_iff. split.
  - intros H. apply Qnot_le_lt. intros Hle. apply Qle_bool_iff in Hle. congruence.
  - intros H. destruct (Qle_bool b a) eqn:E; [|reflexivity].
    apply Qle_bool_iff in E. exfalso. apply (Qlt_not_le _ _ H E).
Qed.

Lemma dlt_key : forall a b, dlt a b = key_ltb (dkey a) (dkey b).
Proof. intros [na ma ea|[]] [nb mb eb|[]]; reflexivity. Qed.


Lemma key_ltb_true : forall x y,
  key_ltb x y = true <-> fst x < fst y \/ (fst x = fst y /\ (snd x < snd y)%Q).
Proof.
  intros x y. unfold key_ltb. rewrite orb_true_iff, andb_true_iff, Z.ltb_lt, Z.eqb_eq, Qltb_true.
  reflexivity.
Qed.


Lemma key_ltb_irrefl : forall x, key_ltb x x = false.
Proof.
  intros x. destruct (key_ltb x x) eqn:E; [|reflexivity].
  apply key_ltb_true in E as [E|[_ E]]; [lia | destruct (Qlt_irrefl _ E)].
Qed.



Lemma key_ltb_trans : forall x y z, key_ltb x y = true -> key_ltb y z = true -> key_ltb x z = true.
Proof.
  intros x y z H G. apply key_ltb_true in H, G. apply key_ltb_true.
  destruct H as [H|[H1 H2]], G as [G|[G1 G2]]; [left; lia | left; lia | left; lia |].
  right. split; [lia | exact (Qlt_trans _ _ _ H2 G2)].
Qed.






(** ** The total-due resolver *)




Lemma clean_and_format_fmt : forall env raw v f,
  clean_and_format_amount_candidate env raw = Some (v, f) -> f = fmt_amount v.
Proof.
  intros env raw v f. unfold clean_and_format_amount_candidate.
  destruct raw; [discriminate|].
  destruct (sub _ _ _ _ _); [discriminate|].
  destruct (search _ _ _ _); [|discriminate].
  intros H. injection H as <- <-. reflexivity.
Qed.






(** ** Facts about the [re] engine: a match only moves forward *)

Section EngineFacts.
Variable env : PyRuntime.
Variable icase : bool.

Lemma advances_refl : forall cu, advances cu cu.
Proof. intros cu. exists []. split; [reflexivity | simpl; lia]. Qed.

Lemma advances_trans : forall a b c, advances a b -> advances b c -> advances a c.
Proof.
  intros a b c (p1 & H1 & P1) (p2 & H2 & P2). exists (p1 ++ p2).
  rewrite H1, H2, app_assoc, P2, P1, length_app. split; [reflexivity | lia].
Qed.

Lemma advances_adv : forall cu c s, rest cu = c :: s -> advances cu (adv cu c s).
Proof. intros cu c s H. exists [c]. simpl. split; [exact H | lia]. Qed.

Lemma rep_greedy_advances : forall m1 : cur -> caps -> list (cur * caps),
  (forall cu cp x, In x (m1 cu cp) -> advances cu (fst x)) ->
  forall fuel lo hi cu cp x, In x (rep_greedy m1 fuel lo hi cu cp) -> advances cu (fst x).
Proof.
  intros m1 Hm1 fuel. induction fuel as [|f IH]; intros lo hi cu cp x Hx; simpl in Hx; [destruct Hx|].
  apply in_app_or in Hx as [Hx | Hx].
  - assert (Hfm : forall hi', In x (flat_map (fun x => let '(cu1, cp1) := x in
                if Nat.eqb (pos cu1) (pos cu) then []
                else rep_greedy m1 f (pred lo) hi' cu1 cp1) (m1 cu cp)) -> advances cu (fst x)).
    { intros hi' H. apply in_flat_map in H as ([cu1 cp1] & Hin & H).
      destruct (Nat.eqb (pos cu1) (pos cu)); [destruct H|].
      apply advances_trans with cu1; [exact (Hm1 _ _ _ Hin) | exact (IH _ _ _ _ _ H)]. }
    destruct hi as [[|h]|]; [destruct Hx | |]; eapply Hfm; exact Hx.
  - destruct (Nat.eqb lo 0); [destruct Hx as [<- | []]; apply advances_refl | destruct Hx].
Qed.

Lemma mt_advances : forall r cu cp x, In x (mt env icase r cu cp) -> advances cu (fst x).
Proof.
  induction r; intros cu cp x Hx; simpl in Hx.
  - destruct Hx as [<- | []]. apply advances_refl.
  - destruct (rest cu) as [|ch s] eqn:E; [destruct Hx|].
    destruct (lit_eq _ _ _ _); [|destruct Hx].
    destruct Hx as [<- | []]. apply advances_adv. exact E.
  - destruct (rest cu) as [|ch s] eqn:E; [destruct Hx|].
    destruct (p ch); [|destruct Hx].
    destruct Hx as [<- | []]. apply advances_adv. exact E.
  - apply in_flat_map in Hx as ([cu1 cp1] & H1 & H2).
    apply advances_trans with cu1; [exact (IHr1 _ _ _ H1) | exact (IHr2 _ _ _ H2)].
  - apply in_app_or in Hx as [Hx | Hx]; [exact (IHr1 _ _ _ Hx) | exact (IHr2 _ _ _ Hx)].
  - exact (rep_greedy_advances _ IHr (S (length (rest cu))) lo hi cu cp x Hx).
  - apply in_map_iff in Hx as ([cu1 cp1] & <- & Hin). exact (IHr _ _ _ Hin).
  - destruct (xorb _ _); [destruct Hx as [<- | []]; apply advances_refl | destruct Hx].
  - destruct (mt env icase r cu cp); [destruct Hx | destruct Hx as [<- | []]; apply advances_refl].
  - destruct (rest cu) as [|ch [|ch' s]]; [| destruct (Z.eqb ch NL) |];
      try destruct Hx as [<- | []]; try destruct Hx; apply advances_refl.
Qed.

Lemma match_at_advances : forall r cu cu1 cp,
  match_at env icase r cu = Some (cu1, cp) -> advances cu cu1.
Proof.
  intros r cu cu1 cp. unfold match_at.
  destruct (mt env icase r cu []) as [|x l] eqn:E; simpl; [discriminate|].
  intros H. injection H as Hx. subst x. apply (mt_advances r cu [] (cu1, cp)). rewrite E. left. reflexivity.
Qed.

Lemma search_none_sub : forall f r repl cu,
  search_loop env icase f r cu = None -> sub_loop env icase f r repl cu = rest cu.
Proof.
  induction f as [|f IH]; intros r repl cu H; simpl in *; [reflexivity|].
  destruct (match_at env icase r cu) as [[cu1 cp]|]; [discriminate|].
  unfold step in H. destruct (rest cu) as [|c s] eqn:E; [reflexivity|].
  f_equal. exact (IH _ _ _ H).
Qed.

Lemma sub_loop_nomatch : forall (Q : text -> Prop) r repl,
  (forall cu, Q (rest cu) -> match_at env icase r cu = None) ->
  (forall c s, Q (c :: s) -> Q s) ->
  forall f cu, Q (rest cu) -> sub_loop env icase f r repl cu = rest cu.
Proof.
  intros Q r repl Hnone Htail f. induction f as [|f IH]; intros cu HQ; simpl; [reflexivity|].
  rewrite (Hnone cu HQ). destruct (rest cu) as [|c s] eqn:E; [reflexivity|].
  f_equal. apply IH. simpl. exact (Htail _ _ HQ).
Qed.

Lemma hd_error_app_some : forall {A} (l m : list A) x, hd_error l = Some x -> hd_error (l ++ m) = Some x.
Proof. intros A [|y l] m x H; [discriminate | exact H]. Qed.

(** the greedy [c*] or [c+] runs over the longest prefix of class characters *)
Lemma rep_cls_greedy : forall p n lo cu cp,
  (length (rest cu) < n)%nat -> (lo <= 1)%nat ->
  (lo = 0%nat \/ exists c s, rest cu = c :: s /\ p c = true) ->
  exists pre cu1,
    hd_error (rep_greedy (mt env icase (Cls p)) n lo None cu cp) = Some (cu1, cp) /\
    rest cu = pre ++ rest cu1 /\ pos cu1 = (pos cu + length pre)%nat /\
    Forall (fun c => p c = true) pre /\ (lo = 1%nat -> pre <> []) /\
    match rest cu1 with c :: _ => p c = false | [] => True end.
Proof.
  intros p n. induction n as [|n IH]; intros lo cu cp Hlen Hlo Hstart; [lia|].
  cbn [rep_greedy option_map]. destruct (rest cu) as [|c s] eqn:E.
  - assert (Hm : mt env icase (Cls p) cu cp = []) by (simpl; rewrite E; reflexivity).
    rewrite Hm. destruct Hstart as [-> | (c & s & H & _)]; [|discriminate].
    exists [], cu. rewrite E. simpl. repeat split; try lia; auto; try constructor.
  - destruct (p c) eqn:Hc.
    + assert (Hm : mt env icase (Cls p) cu cp = [(adv cu c s, cp)])
        by (simpl; rewrite E, Hc; reflexivity).
      assert (Hneq : Nat.eqb (pos (adv cu c s)) (pos cu) = false)
        by (apply Nat.eqb_neq; simpl; lia).
      rewrite Hm. cbn [flat_map]. rewrite Hneq.
      simpl in Hlen.
      destruct (IH 0%nat (adv cu c s) cp) as (pre & cu1 & Hhd & Hr & Hp & Hf & _ & Hend);
        [simpl; lia | lia | left; reflexivity |].
      replace (pred lo) with 0%nat by lia.
      exists (c :: pre), cu1. rewrite app_nil_r. simpl in Hr, Hp.
      split; [apply hd_error_app_some; exact Hhd|].
      split; [rewrite Hr; reflexivity|].
      split; [simpl; lia|].
      split; [constructor; assumption|].
      split; [discriminate | exact Hend].
    + assert (Hm : mt env icase (Cls p) cu cp = []) by (simpl; rewrite E, Hc; reflexivity).
      rewrite Hm. destruct Hstart as [-> | (c' & s' & H & Hc')].
      * exists [], cu. rewrite E. simpl. repeat split; try lia; auto; try constructor.
      * injection H as -> ->. congruence.
Qed.
End EngineFacts.

Lemma match_at_plus_cls : forall env b p cu,
  match_at env b (Rep (Cls p) 1 None) cu =
  hd_error (rep_greedy (mt env b (Cls p)) (S (length (rest cu))) 1 None cu []).
Proof. reflexivity. Qed.

Lemma match_at_plus_cls_none : forall env b p cu,
  match rest cu with c :: _ => p c = false | [] => True end ->
  match_at env b (Rep (Cls p) 1 None) cu = None.
Proof.
  intros env b p cu H. rewrite match_at_plus_cls. cbn [rep_greedy option_map].
  assert (Hm : mt env b (Cls p) cu [] = []).
  { simpl. destruct (rest cu) as [|c s]; [reflexivity|]. rewrite H. reflexivity. }
  rewrite Hm. reflexivity.
Qed.

(** ** Normalized text *)

Section Normalized.
Variable env : PyRuntime.
Hypothesis space_SP : isspace env SP = true.
Hypothesis space_NL : isspace env NL = true.
Hypothesis space_CR : isspace env CR = true.
Hypothesis nonspace_RUPEE : isspace env RUPEE = false.

Lemma good_from_weaken : forall b s, good_from env b s -> good_from env false s.
Proof. intros b [|c s]; simpl; [trivial|]. destruct (isspace env c); intuition. Qed.

Lemma good_from_tail : forall b c s, good_from env b (c :: s) -> good_from env false s.
Proof.
  intros b c s. simpl. destruct (isspace env c); [intros (_ & _ & H) | intros H];
    [exact (good_from_weaken _ _ H) | exact H].
Qed.

Lemma good_from_suffix : forall b pre s, good_from env b (pre ++ s) -> good_from env false s.
Proof.
  intros b pre. revert b. induction pre as [|c pre IH]; intros b s H.
  - exact (good_from_weaken _ _ H).
  - apply (IH false s). exact (good_from_tail b c (pre ++ s) H).
Qed.

Lemma good_from_cons : forall b c s X,
  good_from env b (c :: s) -> (forall b', good_from env b' s -> good_from env b' X) ->
  good_from env b (c :: X).
Proof. intros b c s X. simpl. destruct (isspace env c); intuition. Qed.

(** a whitespace character of a normalized text is a space *)
Lemma good_from_space : forall b s c, good_from env b s -> In c s -> isspace env c = true -> c = SP.
Proof.
  intros b s. revert b. induction s as [|c' s IH]; intros b c H Hin Hc; [destruct Hin|].
  simpl in H. destruct Hin as [<- | Hin].
  - rewrite Hc in H. apply H.
  - destruct (isspace env c'); [apply (IH true) | apply (IH false)]; try apply H; assumption.
Qed.

(** [re.sub(r"\s+", " ", .)] produces a normalized text *)
Lemma squeeze_good : forall f cu, (length (rest cu) < f)%nat ->
  good_from env false (sub_loop env false f (plus (spc env)) (fun _ => [SP]) cu) /\
  (match rest cu with c :: _ => isspace env c = false | [] => True end ->
   good_from env true (sub_loop env false f (plus (spc env)) (fun _ => [SP]) cu)).
Proof.
  induction f as [|f IH]; intros cu Hlen; [lia|].
  cbn [sub_loop]. unfold plus, spc.
  destruct (rest cu) as [|c s] eqn:E.
  - rewrite match_at_plus_cls_none by (rewrite E; trivial). simpl. auto.
  - destruct (isspace env c) eqn:Hc.
    + destruct (rep_cls_greedy env false (isspace env) (S (length (rest cu))) 1 cu [])
        as (pre & cu1 & Hhd & Hr & Hp & Hf & Hne & Hend);
        [lia | lia | right; exists c, s; auto |].
      rewrite match_at_plus_cls, Hhd.
      assert (Hpre : pre <> []) by (apply Hne; reflexivity).
      assert (Hneq : Nat.eqb (pos cu1) (pos cu) = false).
      { apply Nat.eqb_neq. destruct pre; [congruence|]. simpl in Hp. lia. }
      rewrite Hneq.
      assert (Hl1 : (length (rest cu1) < f)%nat).
      { rewrite E in Hr. destruct pre; [congruence|].
        simpl in Hr, Hlen. injection Hr as _ Hr. rewrite Hr, length_app in Hlen. lia. }
      destruct (IH cu1 Hl1) as [_ Hgood].
      split; [|intros H; congruence].
      simpl. rewrite space_SP. repeat split. exact (Hgood Hend).
    + rewrite match_at_plus_cls_none by (rewrite E; exact Hc).
      simpl in Hlen.
      destruct (IH (adv cu c s)) as [Hg _]; [simpl; lia|].
      simpl. rewrite Hc. split; intros; exact Hg.
Qed.

(** [re.sub(r"₹\s*₹", "₹", .)] keeps a text normalized *)
Lemma rupee_good : forall f cu b, good_from env b (rest cu) ->
  good_from env b (sub_loop env false f (RE_DOUBLE_RUPEE env) (fun _ => [RUPEE]) cu).
Proof.
  induction f as [|f IH]; intros cu b H; [exact H|].
  cbn [sub_loop].
  destruct (match_at env false (RE_DOUBLE_RUPEE env) cu) as [[cu1 cp]|] eqn:Hm.
  - destruct (Nat.eqb (pos cu1) (pos cu)).
    + destruct (rest cu) as [|c s] eqn:E.
      * simpl. rewrite nonspace_RUPEE. trivial.
      * simpl. rewrite nonspace_RUPEE.
        apply good_from_cons with s; [exact (good_from_weaken _ _ H)|].
        intros b' Hs. apply IH. exact Hs.
    + destruct (match_at_advances env false _ _ _ _ Hm) as (pre & Hr & _).
      simpl. rewrite nonspace_RUPEE. apply IH.
      rewrite Hr in H. exact (good_from_suffix _ _ _ H).
  - destruct (rest cu) as [|c s] eqn:E; [exact I|].
    apply good_from_cons with s; [exact H|].
    intros b' Hs. apply IH. exact Hs.
Qed.

Lemma mt_cat : forall b r1 r2 cu cp,
  mt env b (Cat r1 r2) cu cp =
  flat_map (fun x => let '(cu1, cp1) := x in mt env b r2 cu1 cp1) (mt env b r1 cu cp).
Proof. reflexivity. Qed.

Lemma flat_map_nil_in : forall {A B} (f : A -> list B) l,
  (forall x, In x l -> f x = []) -> flat_map f l = [].
Proof.
  intros A B f l H. induction l as [|x l IH]; [reflexivity|].
  simpl. rewrite (H x (or_introl eq_refl)). apply IH. intros y Hy. apply H. right. exact Hy.
Qed.

Lemma good_no_NL : forall b s, good_from env b s -> ~ In NL s.
Proof. intros b s H Hin. pose proof (good_from_space b s NL H Hin space_NL). discriminate. Qed.

Lemma good_no_CR : forall b s, good_from env b s -> ~ In CR s.
Proof. intros b s H Hin. pose proof (good_from_space b s CR H Hin space_CR). discriminate. Qed.

(** [re.sub(r"\r", "\n", .)] leaves a text without carriage return as it is *)
Lemma sub_cr_id : forall repl u, ~ In CR u -> sub env false (Lit CR) repl u = u.
Proof.
  intros repl u H. unfold sub.
  apply (sub_loop_nomatch env false (fun s => ~ In CR s)); [| |exact H].
  - intros cu Hcu. unfold match_at. cbn [mt].
    destruct (rest cu) as [|c s]; [reflexivity|].
    unfold lit_eq. destruct (Z.eqb CR c) eqn:E; [|reflexivity].
    apply Z.eqb_eq in E. subst c. exfalso. apply Hcu. left. reflexivity.
  - intros c s Hs Hin. apply Hs. right. exact Hin.
Qed.

(** [RE_SPLIT_AMOUNT] needs a line feed *)
Lemma sub_split_id : forall repl u, ~ In NL u -> sub env false (RE_SPLIT_AMOUNT env) repl u = u.
Proof.
  intros repl u H. unfold sub.
  apply (sub_loop_nomatch env false (fun s => ~ In NL s)); [| |exact H].
  - intros cu Hcu. unfold match_at.
    assert (Hm : mt env false (RE_SPLIT_AMOUNT env) cu [] = []); [|rewrite Hm; reflexivity].
    unfold RE_SPLIT_AMOUNT. cbn [cats]. rewrite mt_cat. apply flat_map_nil_in.
    intros [cu1 cp1] H1. rewrite mt_cat. apply flat_map_nil_in.
    intros [cu2 cp2] H2. rewrite mt_cat.
    assert (Hl : mt env false (Lit NL) cu2 cp2 = []); [|rewrite Hl; reflexivity].
    destruct (mt_advances env false _ _ _ _ H1) as (p1 & R1 & _).
    destruct (mt_advances env false _ _ _ _ H2) as (p2 & R2 & _).
    simpl in R1, R2. cbn [mt]. destruct (rest cu2) as [|c s] eqn:E; [reflexivity|].
    unfold lit_eq. destruct (Z.eqb NL c) eqn:Ec; [|reflexivity].
    apply Z.eqb_eq in Ec. subst c. exfalso. apply Hcu.
    rewrite R1, R2. apply in_or_app. right. apply in_or_app. right. left. reflexivity.
  - intros c s Hs Hin. apply Hs. right. exact Hin.
Qed.

(** [re.sub(r"\s+", " ", .)] leaves a normalized text as it is *)
Lemma squeeze_id : forall f cu, good_from env false (rest cu) ->
  sub_loop env false f (plus (spc env)) (fun _ => [SP]) cu = rest cu.
Proof.
  induction f as [|f IH]; intros cu H; [reflexivity|].
  cbn [sub_loop]. unfold plus, spc.
  destruct (rest cu) as [|c s] eqn:E.
  - rewrite match_at_plus_cls_none by (rewrite E; trivial). reflexivity.
  - destruct (isspace env c) eqn:Hc.
    + simpl in H. rewrite Hc in H. destruct H as (-> & _ & Hs).
      destruct (rep_cls_greedy env false (isspace env) (S (length (rest cu))) 1 cu [])
        as (pre & cu1 & Hhd & Hr & Hp & Hf & Hne & Hend);
        [lia | lia | right; exists SP, s; auto |].
      rewrite match_at_plus_cls, Hhd.
      rewrite E in Hr. destruct pre as [|c' pre]; [exfalso; apply (Hne eq_refl); reflexivity|].
      injection Hr as <- Hr.
      destruct pre as [|c'' pre].
      * simpl in Hr, Hp. subst s.
        assert (Hneq : Nat.eqb (pos cu1) (pos cu) = false) by (apply Nat.eqb_neq; lia).
        rewrite Hneq. simpl. f_equal. apply IH. exact (good_from_weaken _ _ Hs).
      * exfalso. inversion Hf as [|? ? _ Hf']. inversion Hf' as [|? ? Hc'' _].
        rewrite Hr in Hs. simpl in Hs. rewrite Hc'' in Hs. destruct Hs as (_ & Habs & _).
        discriminate.
    + rewrite match_at_plus_cls_none by (rewrite E; exact Hc).
      f_equal. apply IH. simpl. exact (good_from_tail _ _ _ H).
Qed.

Lemma sub_squeeze_id : forall u, good_from env false u -> sub env false (plus (spc env)) (fun _ => [SP]) u = u.
Proof. intros u H. apply squeeze_id. exact H. Qed.

Lemma sub_search_none : forall b r repl u, search env b r u = None -> sub env b r repl u = u.
Proof. intros b r repl u H. apply search_none_sub. exact H. Qed.

(** [clean_text]'s output is normalized *)
Lemma clean_text_good : forall t, good_from env false (clean_text env t).
Proof.
  intros t. unfold clean_text. cbv zeta. unfold sub at 1.
  apply rupee_good. refine (proj1 (squeeze_good _ _ _)). simpl. lia.
Qed.

(** a normalized text without a [₹\s*₹] match is its own normalization *)
Lemma clean_text_fixed : forall u, good_from env false u ->
  search env false (RE_DOUBLE_RUPEE env) u = None -> clean_text env u = u.
Proof.
  intros u Hg Hs. unfold clean_text. cbv zeta.
  rewrite (sub_cr_id _ u (good_no_CR _ _ Hg)).
  rewrite (sub_split_id _ u (good_no_NL _ _ Hg)).
  rewrite (sub_squeeze_id u Hg).
  exact (sub_search_none _ _ _ u Hs).
Qed.

End Normalized.

(** ** Idempotence of the normalizer *)

(** C4 (amended): on a runtime where the space, line feed and carriage return
    are whitespace and [₹] is not, [clean_text] is idempotent on every text
    whose normalization holds no [₹\s*₹] match: then
    [clean_text (clean_text t) = clean_text t]. *)
Theorem clean_text_idempotent_no_double_rupee : forall env t,
  isspace env SP = true -> isspace env NL = true -> isspace env CR = true ->
  isspace env RUPEE = false ->
  search env false (RE_DOUBLE_RUPEE env) (clean_text env t) = None ->
  clean_text env (clean_text env t) = clean_text env t.
Proof.
  intros env t HSP HNL HCR HR Hs. apply clean_text_fixed; auto. apply clean_text_good; auto.
Qed.

Lemma clean_text_idempotent_no_double_rupee_witness :
  search env0 false (RE_DOUBLE_RUPEE env0) (clean_text env0 (T "Total Amount Due
12
543.89")) = None /\
  clean_text env0 (clean_text env0 (T "Total Amount Due
12
543.89")) = clean_text env0 (T "Total Amount Due
12
543.89").
Proof.
  assert (Hs : search env0 false (RE_DOUBLE_RUPEE env0) (clean_text env0 (T "Total Amount Due
12
543.89")) = None) by (vm_compute; reflexivity).
  split; [exact Hs|].
  apply clean_text_idempotent_no_double_rupee; [reflexivity | reflexivity | reflexivity | reflexivity | exact Hs].
Defined.

(** C4 (counterexample): three rupee signs normalize to two, which normalize to one. *)
Lemma triple_rupee_not_idempotent :
  clean_text env0 [RUPEE; RUPEE; RUPEE] = [RUPEE; RUPEE] /\
  clean_text env0 (clean_text env0 [RUPEE; RUPEE; RUPEE]) = [RUPEE].
Proof. vm_compute. split; reflexivity. Qed.

(** ** The transactions preview *)

Lemma split_on_no_sep : forall sep u, ~ In sep u -> split_on sep u = [u].
Proof.
  intros sep u. induction u as [|c u IH]; intros H; [reflexivity|].
  simpl. destruct (Z.eqb c sep) eqn:E.
  - apply Z.eqb_eq in E. subst c. exfalso. apply H. left. reflexivity.
  - rewrite IH; [reflexivity|]. intros Hin. apply H. right. exact Hin.
Qed.

(** C10 (amended): the normalized text has no line feed, so the transaction
    heuristic sees it as a single line: the preview is empty, or its one entry
    is the normalized text stripped of leading and trailing whitespace, present
    exactly when that text holds an [RE_DATE] match and an [RE_AMOUNT] match. *)
Theorem preview_single_stripped : forall env path raw,
  isspace env SP = true -> isspace env NL = true -> isspace env RUPEE = false ->
  field (parse_statement env path raw) "transactions_preview" =
  Some (JList (if is_some (search env false (RE_DATE env) (clean_text env raw)) &&
                  is_some (search env true (RE_AMOUNT env) (clean_text env raw))
               then [py_strip env (clean_text env raw)] else [])).
Proof.
  intros env path raw HSP HNL HR.
  change (field (parse_statement env path raw) "transactions_preview")
    with (Some (JList (firstn 20 (extract_transactions_simple env (clean_text env raw) 200)))).
  unfold extract_transactions_simple.
  rewrite split_on_no_sep by (apply (good_no_NL env HNL false); apply clean_text_good; assumption).
  cbn [txn_loop].
  destruct (is_some (search env false (RE_DATE env) (clean_text env raw)) &&
            is_some (search env true (RE_AMOUNT env) (clean_text env raw))); reflexivity.
Qed.

Lemma preview_single_stripped_witness :
  field (parse_statement env0 (T "a.pdf") (T "05/03/2024 Rs 500 ")) "transactions_preview" =
  Some (JList [py_strip env0 (clean_text env0 (T "05/03/2024 Rs 500 "))]).
Proof.
  rewrite (preview_single_stripped env0 (T "a.pdf") (T "05/03/2024 Rs 500 "));
    [| reflexivity | reflexivity | reflexivity].
  vm_compute. reflexivity.
Defined.

Lemma txn_loop_firstn : forall env n lns acc, (length acc < Nat.max 1 n)%nat ->
  txn_loop env n acc lns =
  rev acc ++ firstn (Nat.max 1 n - length acc)
    (map (py_strip env) (filter (fun ln => is_some (search env false (RE_DATE env) ln) &&
                                           is_some (search env true (RE_AMOUNT env) ln)) lns)).
Proof.
  intros env n lns. induction lns as [|ln lns IH]; intros acc Hlen; cbn [txn_loop filter].
  - rewrite firstn_nil, app_nil_r. reflexivity.
  - destruct (is_some (search env false (RE_DATE env) ln) &&
              is_some (search env true (RE_AMOUNT env) ln)); [|exact (IH acc Hlen)].
    cbn [map length rev]. destruct (Nat.leb n (S (length acc))) eqn:E.
    + apply Nat.leb_le in E.
      replace (Nat.max 1 n - length acc)%nat with 1%nat by lia. reflexivity.
    + apply Nat.leb_gt in E. rewrite IH by (cbn [length]; lia). cbn [length rev].
      rewrite <- app_assoc. f_equal.
      replace (Nat.max 1 n - length acc)%nat with (S (Nat.max 1 n - S (length acc))) by lia.
      reflexivity.
Qed.

(** [extract_transactions_simple(text, max_lines)] is the first
    [max(1, max_lines)] lines of [text.split("\n")] that have both a date and
    an amount match, each stripped: the loop only stops after an append, so
    [max_lines <= 0] still keeps one line *)
Theorem extract_transactions_first_lines : forall env t n,
  extract_transactions_simple env t n =
  firstn (Nat.max 1 n)
    (map (py_strip env) (filter (fun ln => is_some (search env false (RE_DATE env) ln) &&
                                           is_some (search env true (RE_AMOUNT env) ln))
                           (split_on NL t))).
Proof.
  intros env t n. unfold extract_transactions_simple.
  rewrite txn_loop_firstn by (cbn [length]; lia). cbn [length rev app]. rewrite Nat.sub_0_r. reflexivity.
Qed.

Lemma lstrip_head : forall env s,
  match lstrip env s with c :: _ => isspace env c = false | [] => True end.
Proof.
  intros env s. induction s as [|c s IH]; simpl; [trivial|].
  destruct (isspace env c) eqn:E; [exact IH | exact E].
Qed.

Lemma lstrip_suffix : forall env s, exists pre, s = pre ++ lstrip env s.
Proof.
  intros env s. induction s as [|c s IH]; simpl; [exists []; reflexivity|].
  destruct (isspace env c).
  - destruct IH as (pre & Hpre). exists (c :: pre). simpl. rewrite <- Hpre. reflexivity.
  - exists []. reflexivity.
Qed.

(** [s.strip()] neither starts nor ends with whitespace *)
Lemma py_strip_ends : forall env s,
  py_strip env s = [] \/
  ((exists c r, py_strip env s = c :: r /\ isspace env c = false) /\
   (exists r c, py_strip env s = r ++ [c] /\ isspace env c = false)).
Proof.
  intros env s. unfold py_strip.
  set (L := lstrip env s). set (M := lstrip env (rev L)).
  destruct M as [|m M'] eqn:HM; [left; reflexivity|]. right. split.
  - destruct (lstrip_suffix env (rev L)) as (pre & Hpre). fold M in Hpre. rewrite HM in Hpre.
    assert (HL : L = rev M' ++ [m] ++ rev pre).
    { rewrite <- (rev_involutive L), Hpre, rev_app_distr. simpl. rewrite <- app_assoc. reflexivity. }
    pose proof (lstrip_head env s) as Hh. fold L in Hh.
    simpl. destruct (rev M') as [|x r] eqn:Er.
    + simpl in HL. rewrite HL in Hh. exists m, []. split; [reflexivity | exact Hh].
    + simpl in HL. rewrite HL in Hh. exists x, (r ++ [m]). split; [reflexivity | exact Hh].
  - pose proof (lstrip_head env (rev L)) as Hh. fold M in Hh. rewrite HM in Hh.
    exists (rev M'), m. split; [reflexivity | exact Hh].
Qed.

(** every line [extract_transactions_simple] returns is empty or starts and
    ends with a non-whitespace character *)
Theorem transactions_stripped : forall env t n e,
  In e (extract_transactions_simple env t n) ->
  e = [] \/
  ((exists c r, e = c :: r /\ isspace env c = false) /\
   (exists r c, e = r ++ [c] /\ isspace env c = false)).
Proof.
  intros env t n e H. rewrite extract_transactions_first_lines in H.
  set (l := map (py_strip env) _) in H.
  assert (Hl : In e l).
  { rewrite <- (firstn_skipn (Nat.max 1 n) l). apply in_or_app. left. exact H. }
  unfold l in Hl. apply in_map_iff in Hl. destruct Hl as (ln & <- & _).
  apply py_strip_ends.
Qed.

Lemma transactions_stripped_witness :
  In (T "05/03/2024 Rs 500") (extract_transactions_simple env0 (T "header
 05/03/2024 Rs 500 
footer") 200) /\
  (exists c r, T "05/03/2024 Rs 500" = c :: r /\ isspace env0 c = false).
Proof.
  assert (H : In (T "05/03/2024 Rs 500") (extract_transactions_simple env0 (T "header
 05/03/2024 Rs 500 
footer") 200)) by (vm_compute; left; reflexivity).
  split; [exact H|].
  destruct (transactions_stripped env0 _ _ _ H) as [E | [Hc _]]; [discriminate | exact Hc].
Defined.

(** a card suffix [find_last4] returns has one to four characters, all of
    them digits ([str.isdigit]) *)
Theorem find_last4_shape : forall env t d,
  find_last4 env t = Some d ->
  (1 <= length d <= 4)%nat /\ Forall (fun c => isdigit env c = true) d.
Proof.
  intros env t d H. unfold find_last4 in H.
  destruct (last4_loop_spec env _ d H) as (pre & m & post & _ & _ & Hacc & ->).
  unfold last4_accepts in Hacc. set (ds := match_digits m) in *.
  apply andb_true_iff in Hacc as [Hacc _]. apply andb_true_iff in Hacc as [Hne Hall].
  apply negb_true_iff, Nat.eqb_neq in Hne. split.
  - rewrite length_skipn. lia.
  - rewrite forallb_forall in Hall. apply Forall_forall. intros c Hc.
    apply Hall. rewrite <- (firstn_skipn (length ds - 4) ds). apply in_or_app. right. exact Hc.
Qed.

Lemma first_valid_date_spec : forall env ds s,
  first_valid_date env ds = Some s ->
  exists tok dt, In tok ds /\ dateparse env true true tok = Some dt /\
    2020 <= year dt <= 2100 /\ s = strftime dt.
Proof.
  intros env ds s. induction ds as [|d ds IH]; cbn [first_valid_date]; [discriminate|].
  destruct (dateparse env true true d) as [dt|] eqn:Hd.
  - destruct (in_range 2020 2100 (year dt)) eqn:Hr.
    + intros H. injection H as <-. unfold in_range in Hr.
      apply andb_true_iff in Hr as [H1 H2]. apply Z.leb_le in H1, H2.
      exists d, dt. repeat split; first [left; reflexivity | assumption | lia].
    + intros H. destruct (IH H) as (tok & dt' & ? & ? & ? & ?).
      exists tok, dt'. repeat split; first [right; assumption | assumption | lia].
  - intros H. destruct (IH H) as (tok & dt' & ? & ? & ? & ?).
    exists tok, dt'. repeat split; first [right; assumption | assumption | lia].
Qed.

(** a due date [find_due_date_near_label] returns is the [%Y-%m-%d] form of a
    date in the years 2020..2100 that [dateutil] parsed from a [RE_DATE] match,
    either in the 200 characters from some position of the text or anywhere
    in the text *)
Theorem due_date_valid_token : forall env t s,
  find_due_date_near_label env t = Some s ->
  exists tok dt, dateparse env true true tok = Some dt /\
    2020 <= year dt <= 2100 /\ s = strftime dt /\
    ((exists i, In tok (date_tokens env (slice t i (i + 200)))) \/ In tok (date_tokens env t)).
Proof.
  intros env t s. unfold find_due_date_near_label. induction DUE_LABELS as [|l ls IH]; cbn [due_loop].
  - intros H. destruct (first_valid_date_spec env _ s H) as (tok & dt & ? & ? & ? & ?).
    exists tok, dt. repeat split; first [right; assumption | assumption | lia].
  - destruct (py_find (lower env t) l 0) as [idx|]; [|exact IH].
    destruct (first_valid_date env (date_tokens env (slice t idx (idx + 200)))) as [r|] eqn:Hf;
      [|exact IH].
    intros H. injection H as <-. destruct (first_valid_date_spec env _ r Hf) as (tok & dt & ? & ? & ? & ?).
    exists tok, dt. repeat split; first [left; exists idx; assumption | assumption | lia].
Qed.




Lemma fallback_fmt : forall env t v f p, In (v, f, p) (fallback_cands env t) -> f = fmt_amount v.
Proof.
  intros env t v f p H. unfold fallback_cands in H. apply in_flat_map in H as (m & _ & Hm).
  destruct (clean_and_format_amount_candidate env (m_text m)) as [[v' f']|] eqn:E; [|destruct Hm].
  destruct Hm as [Hm|[]]. injection Hm as <- <- _. exact (clean_and_format_fmt _ _ _ _ E).
Qed.


Lemma find_last4_shape_witness :
  find_last4 env0 (T "Card No: XXXX XXXX XXXX 4321") = Some (T "4321") /\
  (1 <= length (T "4321") <= 4)%nat /\ Forall (fun c => isdigit env0 c = true) (T "4321").
Proof.
  assert (H : find_last4 env0 (T "Card No: XXXX XXXX XXXX 4321") = Some (T "4321"))
    by (vm_compute; reflexivity).
  split; [exact H|]. exact (find_last4_shape env0 _ _ H).
Defined.

Lemma due_date_valid_token_witness :
  find_due_date_near_label env0 (T "Payment Due Date: 05/03/2024") = Some (T "2024-03-05") /\
  exists dt, 2020 <= year dt <= 2100 /\ T "2024-03-05" = strftime dt.
Proof.
  assert (H : find_due_date_near_label env0 (T "Payment Due Date: 05/03/2024") = Some (T "2024-03-05"))
    by (vm_compute; reflexivity).
  split; [exact H|].
  destruct (due_date_valid_token env0 _ _ H) as (tok & dt & _ & Hy & Hs & _).
  exists dt. split; [exact Hy | exact Hs].
Defined.


Lemma trip_gt_irrefl : forall a, trip_gt a a = false.
Proof. intros a. unfold trip_gt. rewrite dlt_key. apply key_ltb_irrefl. Qed.

Lemma trip_gt_trans : forall a b c, trip_gt a b = true -> trip_gt b c = true -> trip_gt a c = true.
Proof.
  unfold trip_gt. intros a b c H1 H2. rewrite dlt_key in *. exact (key_ltb_trans _ _ _ H2 H1).
Qed.

(** when no label occurs in a non-empty text, [find_label_value] returns
    [None] if no [RE_AMOUNT] match of the text gives a value, and otherwise the
    formatted value of a candidate whose float value is the largest: no
    candidate's float is greater *)
Theorem find_label_value_fallback_max : forall env t labels,
  t <> [] -> label_positions env t labels = [] ->
  (fallback_cands env t = [] /\ find_label_value env t labels = None) \/
  (exists v f p, In (v, f, p) (fallback_cands env t) /\
     find_label_value env t labels = Some f /\ f = fmt_amount v /\
     forall v' f' p', In (v', f', p') (fallback_cands env t) -> dlt v v' = false).
Proof.
  intros env t labels Ht Hl. unfold find_label_value.
  destruct t as [|ch t']; [congruence|]. rewrite Hl.
  change (flat_map _ _) with (fallback_cands env (ch :: t')).
  destruct (fallback_cands env (ch :: t')) as [|c cs] eqn:Ec; [left; split; reflexivity|].
  right. pose proof (py_max_in trip_gt c cs) as Hin.
  pose proof (py_max_upper trip_gt trip_gt_irrefl trip_gt_trans c cs) as Hup.
  change (fun a b : double * text * Z => dlt (fst (fst b)) (fst (fst a))) with trip_gt.
  destruct (py_max trip_gt c cs) as [[v f] p] eqn:Em.
  assert (Hm : In (v, f, p) (c :: cs)).
  { destruct Hin as [Hin|Hin]; [left; symmetry; exact Hin | right; exact Hin]. }
  exists v, f, p. split; [exact Hm|]. split; [reflexivity|]. split.
  - apply (fallback_fmt env (ch :: t') v f p). rewrite Ec. exact Hm.
  - intros v' f' p' H'. specialize (Hup _ H'). unfold trip_gt in Hup. cbn [fst] in Hup. exact Hup.
Qed.

Lemma find_label_value_fallback_max_witness :
  label_positions env0 (T "paid 1,250.00 and 980.50") [] = [] /\
  exists v f p, In (v, f, p) (fallback_cands env0 (T "paid 1,250.00 and 980.50")) /\
    find_label_value env0 (T "paid 1,250.00 and 980.50") [] = Some f /\ f = fmt_amount v.
Proof.
  assert (Hl : label_positions env0 (T "paid 1,250.00 and 980.50") [] = []) by (vm_compute; reflexivity).
  split; [exact Hl|].
  destruct (find_label_value_fallback_max env0 (T "paid 1,250.00 and 980.50") [])
    as [[Hn _] | (v & f & p & Hin & Hv & Hf & _)]; [discriminate | exact Hl | vm_compute in Hn; discriminate |].
  exists v, f, p. auto.
Defined.

(** within one 400-year era, [civil_from_days] yields a year of era in
    0..399 and a March-based month index in 0..11 *)
Lemma era_bounds : forall doe, 0 <= doe < 146097 ->
  let yoe := (doe - doe / 1460 + doe / 36524 - doe / 146096) / 365 in
  let doy := doe - (365 * yoe + yoe / 4 - yoe / 100) in
  0 <= yoe <= 399 /\ 0 <= (5 * doy + 2) / 153 <= 11.
Proof. intros doe H yoe doy. unfold doy, yoe. Z.div_mod_to_equations. lia. Qed.

Ltac zcases :=
  repeat match goal with
  | |- context [if ?a <? ?b then _ else _] => destruct (Z.ltb_spec a b)
  | |- context [if ?a <=? ?b then _ else _] => destruct (Z.leb_spec a b)
  | |- context [if ?a >? ?b then _ else _] => rewrite (Z.gtb_ltb a b)
  end.

(** [civil_from_days] inverts [days_from_civil] on every day number *)
Lemma days_from_civil_of_days : forall z, days_from_civil (civil_from_days z) = z.
Proof.
  intros z. unfold civil_from_days.
  set (z' := z + 719468). set (era := z' / 146097). set (doe := z' - era * 146097).
  assert (Hdoe : 0 <= doe < 146097) by (unfold doe, era; pose proof (Z.mod_pos_bound z' 146097); rewrite Z.mod_eq in *; lia).
  pose proof (era_bounds doe Hdoe) as Hok. cbv zeta in Hok.
  set (yoe := (doe - doe / 1460 + doe / 36524 - doe / 146096) / 365) in *.
  set (doy := doe - (365 * yoe + yoe / 4 - yoe / 100)) in *.
  set (mp := (5 * doy + 2) / 153) in *.
  destruct Hok as [Hyoe Hmp].
  unfold days_from_civil. cbn [year month day].
  assert (Hy : (if (if mp <? 10 then mp + 3 else mp - 9) <=? 2
                then (if (if mp <? 10 then mp + 3 else mp - 9) <=? 2 then yoe + era * 400 + 1
                      else yoe + era * 400) - 1
                else (if (if mp <? 10 then mp + 3 else mp - 9) <=? 2 then yoe + era * 400 + 1
                      else yoe + era * 400)) = yoe + era * 400).
  { zcases; lia. }
  rewrite Hy.
  assert (Hm : (if (if mp <? 10 then mp + 3 else mp - 9) >? 2
                then (if mp <? 10 then mp + 3 else mp - 9) - 3
                else (if mp <? 10 then mp + 3 else mp - 9) + 9) = mp).
  { zcases; lia. }
  rewrite Hm.
  assert (He : (yoe + era * 400) / 400 = era).
  { rewrite Z.div_add by lia. rewrite Z.div_small by lia. lia. }
  rewrite He. replace (yoe + era * 400 - era * 400) with yoe by lia. unfold doy, doe, z'. lia.
Qed.

Lemma find_from_first : forall p l i,
  find_from p l i = hd_error (filter (fun j => prefixb p (skipn (j - i) l)) (seq i (S (length l)))).
Proof.
  intros p l. induction l as [|c l IH]; intros i.
  - cbn [find_from length seq filter]. rewrite Nat.sub_diag. cbn [skipn].
    destruct (prefixb p []); reflexivity.
  - cbn [find_from length]. change (seq i (S (S (length l)))) with (i :: seq (S i) (S (length l))).
    cbn [filter]. rewrite Nat.sub_diag. cbn [skipn].
    destruct (prefixb p (c :: l)); [reflexivity|].
    rewrite IH. f_equal. apply filter_ext_in. intros j Hj. apply in_seq in Hj.
    replace (j - i)%nat with (S (j - S i)) by lia. reflexivity.
Qed.

Lemma py_find_first : forall s p st,
  py_find s p st = hd_error (filter (fun j => prefixb p (skipn j s)) (seq st (S (length s) - st))).
Proof.
  intros s p st. unfold py_find. destruct (Nat.ltb (length s) st) eqn:E.
  - apply Nat.ltb_lt in E. replace (S (length s) - st)%nat with O by lia. reflexivity.
  - apply Nat.ltb_ge in E. rewrite find_from_first, length_skipn.
    replace (S (length s) - st)%nat with (S (length s - st)) by lia. f_equal.
    apply filter_ext_in. intros j Hj. apply in_seq in Hj.
    rewrite skipn_skipn. replace (j - st + st)%nat with j by lia. reflexivity.
Qed.

Lemma filter_seq_hd : forall (P : nat -> bool) n st idx,
  hd_error (filter P (seq st n)) = Some idx ->
  (st <= idx < st + n)%nat /\ filter P (seq st n) = idx :: filter P (seq (S idx) (st + n - S idx)).
Proof.
  intros P n. induction n as [|n IH]; intros st idx H; [discriminate|].
  cbn [seq filter] in *. destruct (P st) eqn:Hp.
  - injection H as <-. split; [lia|]. replace (st + S n - S st)%nat with n by lia. reflexivity.
  - destruct (IH (S st) idx H) as [Hb Heq]. split; [lia|]. rewrite Heq. replace (st + S n - S idx)%nat with (S st + n - S idx)%nat by lia. reflexivity.
Qed.

Lemma filter_hd_none : forall {A} (P : A -> bool) l, hd_error (filter P l) = None -> filter P l = [].
Proof. intros A P l H. destruct (filter P l); [reflexivity | discriminate]. Qed.

Lemma occ_loop_all : forall lbl s f st, (length s + 2 <= st + f)%nat ->
  occ_loop f lbl s st = filter (fun i => prefixb lbl (skipn i s)) (seq st (S (length s) - st)).
Proof.
  intros lbl s f. induction f as [|f IH]; intros st Hf; cbn [occ_loop].
  - replace (S (length s) - st)%nat with O by lia. reflexivity.
  - rewrite py_find_first. destruct (hd_error _) as [idx|] eqn:Eh.
    + destruct (filter_seq_hd _ _ _ _ Eh) as [Hb ->]. f_equal. rewrite IH by lia.
      replace (st + (S (length s) - st) - S idx)%nat with (S (length s) - S idx)%nat by lia. reflexivity.
    + symmetry. exact (filter_hd_none _ _ Eh).
Qed.

(** the [lower.find(lbl, start)] loop of [find_label_value] lists every
    position [0..len(s)] at which [lbl] occurs in [s], in increasing order,
    overlapping occurrences included *)
Theorem label_occurrences_all : forall lbl s,
  label_occurrences lbl s = filter (fun i => prefixb lbl (skipn i s)) (seq 0 (S (length s))).
Proof.
  intros lbl s. unfold label_occurrences. rewrite occ_loop_all by lia. rewrite Nat.sub_0_r. reflexivity.
Qed.

(** on a runtime where space, newline and carriage return are whitespace and
    [₹] is not, [clean_text] leaves no newline or carriage return, every
    whitespace character it leaves is a space, and no two of them are adjacent *)
Theorem clean_text_whitespace_normal : forall env,
  isspace env SP = true -> isspace env NL = true -> isspace env CR = true ->
  isspace env RUPEE = false -> forall t,
  ~ In NL (clean_text env t) /\ ~ In CR (clean_text env t) /\
  (forall c, In c (clean_text env t) -> isspace env c = true -> c = SP) /\
  (forall pre a b post, clean_text env t = pre ++ a :: b :: post ->
     isspace env a = false \/ isspace env b = false).
Proof.
  intros env HSP HNL HCR HR t. pose proof (clean_text_good env HSP HR t) as G.
  split; [exact (good_no_NL env HNL false _ G)|].
  split; [exact (good_no_CR env HCR false _ G)|].
  split; [intros c Hin Hc; exact (good_from_space env false _ c G Hin Hc)|].
  intros pre a b post He. rewrite He in G. apply good_from_suffix in G.
  cbn [good_from] in G. destruct (isspace env a) eqn:Ha; [|left; reflexivity].
  destruct G as (_ & _ & G). cbn [good_from] in G. destruct (isspace env b) eqn:Hb; [|right; reflexivity].
  destruct G as (_ & G & _). discriminate.
Qed.


(** a billing cycle [generate_billing_cycle] returns ends on the parsed due
    date and starts exactly [cycle_days] days earlier (as [timedelta] counts
    days), which is one of 30, 35, 40, 45 and 60 *)
Theorem billing_cycle_span : forall env issuer due a b,
  generate_billing_cycle env issuer due = Some (a, b) ->
  exists s ds de, due = Some s /\ dateparse env false false s = Some de /\
    a = strftime ds /\ b = strftime de /\
    days_from_civil de - days_from_civil ds = cycle_days issuer /\
    In (cycle_days issuer) [30; 35; 40; 45; 60].
Proof.
  intros env issuer due a b H. unfold generate_billing_cycle in H.
  destruct due as [[|ch s']|]; try discriminate.
  destruct (dateparse env false false (ch :: s')) as [dd|] eqn:Hd; [|discriminate].
  injection H as <- <-.
  exists (ch :: s'), (add_days dd (- cycle_days issuer)), dd.
  repeat split; try reflexivity; try exact Hd.
  - unfold add_days. rewrite days_from_civil_of_days. lia.
  - unfold cycle_days. destruct (find _ ISSUERS) as [conf|] eqn:Ef.
    + apply find_some in Ef as [Hin _]. cbn in Hin.
      repeat destruct Hin as [<-|Hin]; cbn; tauto.
    + cbn. tauto.
Qed.

Lemma billing_cycle_span_witness :
  generate_billing_cycle env0 (T "ICICI") (Some (T "2024-03-15")) = Some (T "2024-02-09", T "2024-03-15") /\
  exists ds de, T "2024-02-09" = strftime ds /\ T "2024-03-15" = strftime de /\
    days_from_civil de - days_from_civil ds = 35.
Proof.
  assert (H : generate_billing_cycle env0 (T "ICICI") (Some (T "2024-03-15")) =
              Some (T "2024-02-09", T "2024-03-15")) by (vm_compute; reflexivity).
  split; [exact H|].
  destruct (billing_cycle_span env0 _ _ _ _ H) as (s & ds & de & _ & _ & Ha & Hb & Hspan & _).
  exists ds, de. split; [exact Ha|]. split; [exact Hb|]. rewrite Hspan. reflexivity.
Defined.

Lemma clean_text_whitespace_normal_witness :
  ~ In NL (clean_text env0 (T "Total  Due")) /\ ~ In CR (clean_text env0 (T "Total  Due")) /\
  (forall c, In c (clean_text env0 (T "Total  Due")) -> isspace env0 c = true -> c = SP) /\
  (forall pre a b post, clean_text env0 (T "Total  Due") = pre ++ a :: b :: post ->
     isspace env0 a = false \/ isspace env0 b = false).
Proof.
  apply clean_text_whitespace_normal; reflexivity.
Defined.

(** [re.sub] of a one-character class with [""] keeps exactly the other characters *)
Lemma sub_cls_filter : forall env b p f cu, (length (rest cu) < f)%nat ->
  sub_loop env b f (Cls p) (fun _ => []) cu = filter (fun c => negb (p c)) (rest cu).
Proof.
  intros env b p f. induction f as [|f IH]; intros cu Hf; [lia|].
  cbn [sub_loop]. unfold match_at. cbn [mt].
  destruct (rest cu) as [|c s] eqn:E; [reflexivity|].
  cbn [filter]. destruct (p c) eqn:Hp; cbn [hd_error negb].
  - cbn [pos adv]. rewrite (proj2 (Nat.eqb_neq _ _)) by lia. cbn [app].
    rewrite IH by (cbn [rest adv]; cbn [length] in Hf; lia). reflexivity.
  - f_equal. rewrite IH by (cbn [rest adv]; cbn [length] in Hf; lia). reflexivity.
Qed.

Lemma number_needs_digit : forall env cu cp, no_decimal env (rest cu) ->
  mt env false (RE_NUMBER env) cu cp = [].
Proof.
  intros env cu cp H. unfold RE_NUMBER. cbn [cats]. cbn [mt].
  apply flat_map_nil_in. intros [cu1 cp1] Hx.
  destruct (mt_advances env false _ cu cp _ Hx) as (pre & Hr & _). cbn [fst] in Hr.
  cbn [mt]. unfold plus. cbn [mt rep_greedy]. unfold dgt. cbn [mt].
  destruct (rest cu1) as [|c s] eqn:E; [reflexivity|].
  rewrite (H c) by (rewrite Hr; apply in_or_app; right; left; reflexivity). reflexivity.
Qed.

Lemma number_search_none : forall env f cu, no_decimal env (rest cu) ->
  search_loop env false f (RE_NUMBER env) cu = None.
Proof.
  intros env f. induction f as [|f IH]; intros cu H; [reflexivity|].
  cbn [search_loop]. unfold match_at. rewrite number_needs_digit by exact H. cbn [hd_error].
  unfold step. destruct (rest cu) as [|c s] eqn:E; [reflexivity|].
  apply IH. cbn [rest adv]. intros x Hx. apply H. right. exact Hx.
Qed.

(** [clean_and_format_amount_candidate] gives a value only when its input
    holds a decimal digit: the value is [float] of the first [-?\d+(?:\.\d+)?]
    match of the input with every character other than digits, ['.'] and
    ['-'] deleted, correctly rounded to a float, and the text is
    [fmt_amount] of that float *)
Theorem clean_and_format_digits_only : forall env raw v f,
  clean_and_format_amount_candidate env raw = Some (v, f) ->
  (exists c, In c raw /\ isdecimal env c = true) /\
  exists m, search env false (RE_NUMBER env) (filter (amount_char env) raw) = Some m /\
    v = py_float env (m_text m) /\ f = fmt_amount v.
Proof.
  intros env raw v f H. unfold clean_and_format_amount_candidate in H.
  destruct raw as [|ch raw']; [discriminate|].
  unfold sub in H. rewrite sub_cls_filter in H by (cbn [rest init]; lia). cbn [rest init] in H.
  rewrite (filter_ext (fun c => negb (negb (isdecimal env c || Z.eqb c 46 || Z.eqb c 45))) (amount_char env))
    in H by (intros c; apply negb_involutive).
  set (s := filter (amount_char env) (ch :: raw')) in *.
  assert (Hm : exists m, search env false (RE_NUMBER env) s = Some m /\ v = py_float env (m_text m) /\ f = fmt_amount v).
  { destruct s as [|x s']; [discriminate|].
    destruct (search env false (RE_NUMBER env) (x :: s')) as [m|]; [|discriminate].
    injection H as <- <-. exists m. auto. }
  split; [|exact Hm].
  destruct (existsb (isdecimal env) (ch :: raw')) eqn:Ed.
  - apply existsb_exists in Ed. exact Ed.
  - exfalso. destruct Hm as (m & Hs & _). unfold search in Hs.
    rewrite number_search_none in Hs; [discriminate|]. cbn [rest init].
    intros c Hc. apply filter_In in Hc as [Hc _].
    destruct (isdecimal env c) eqn:Ec; [|reflexivity].
    assert (existsb (isdecimal env) (ch :: raw') = true) by (apply existsb_exists; eauto).
    congruence.
Qed.


Lemma clean_and_format_digits_only_witness :
  exists v f, clean_and_format_amount_candidate env0 (T "Rs. 1,234.50") = Some (v, f) /\
    exists c, In c (T "Rs. 1,234.50") /\ isdecimal env0 c = true.
Proof.
  destruct (clean_and_format_amount_candidate env0 (T "Rs. 1,234.50")) as [[v f]|] eqn:E;
    [|vm_compute in E; discriminate].
  exists v, f. split; [reflexivity|]. exact (proj1 (clean_and_format_digits_only env0 _ v f E)).
Defined.

Lemma parse_statement_issuer : forall env p raw,
  field (parse_statement env p raw) "issuer" = Some (JStr (detect_issuer env (clean_text env raw))).
Proof. reflexivity. Qed.

Lemma parse_statement_file : forall env p raw,
  field (parse_statement env p raw) "file" = Some (JStr (basename p)).
Proof. reflexivity. Qed.

Lemma detect_issuer_cases : forall env t,
  detect_issuer env t = T "UNKNOWN" \/ In (detect_issuer env t) SUPPORTED.
Proof.
  intros env t. unfold detect_issuer.
  destruct (find _ ISSUERS) as [conf|] eqn:Ef; [right|left; reflexivity].
  apply find_some in Ef as [Hin _]. cbn in Hin.
  repeat destruct Hin as [<-|Hin]; cbn; tauto.
Qed.

Lemma issuer_supported_parse : forall env p raw,
  issuer_supported (parse_statement env p raw) =
  negb (text_eqb (detect_issuer env (clean_text env raw)) (T "UNKNOWN")).
Proof.
  intros env p raw. unfold issuer_supported. rewrite parse_statement_issuer.
  destruct (detect_issuer_cases env (clean_text env raw)) as [->|Hin]; [reflexivity|].
  generalize dependent (detect_issuer env (clean_text env raw)). intros d Hin.
  cbn in Hin. repeat destruct Hin as [<-|Hin]; try reflexivity; try destruct Hin.
Qed.

(** [upload] accepts a file exactly when the extension [os.path.splitext]
    gives, lower-cased, is [.pdf] and the issuer of the extracted text is
    detected; then [LAST_RESULTS] becomes the one new result, otherwise an
    error page is shown and [LAST_RESULTS] is left as it was *)
Theorem upload_outcome : forall env fn tmp raw last,
  let ok := text_eqb (lower env (snd (splitext fn))) (T ".pdf") &&
            negb (text_eqb (detect_issuer env (clean_text env raw)) (T "UNKNOWN")) in
  (ok = true /\ upload env fn tmp raw last =
     (ResultPage [parse_statement env tmp raw] false, [parse_statement env tmp raw])) \/
  (ok = false /\ exists e, upload env fn tmp raw last = (ErrorPage e, last)).
Proof.
  intros env fn tmp raw last ok. unfold ok, upload. cbv zeta.
  rewrite issuer_supported_parse.
  destruct (text_eqb (lower env (snd (splitext fn))) (T ".pdf")); cbn [negb andb].
  - destruct (text_eqb (detect_issuer env (clean_text env raw)) (T "UNKNOWN")); cbn [negb].
    + right. split; [reflexivity|]. eexists. reflexivity.
    + left. split; reflexivity.
  - right. split; [reflexivity|]. eexists. reflexivity.
Qed.

(** after an accepted upload, [download_json] answers with the one new
    result, whose ["file"] is the temporary file's name (not the uploaded
    one) and whose ["issuer"] is a supported bank, while [download_csv]
    fails with an internal server error *)
Theorem upload_then_downloads : forall env fn tmp raw last,
  text_eqb (lower env (snd (splitext fn))) (T ".pdf") = true ->
  detect_issuer env (clean_text env raw) <> T "UNKNOWN" ->
  download_json (snd (upload env fn tmp raw last)) = JsonBody [parse_statement env tmp raw] /\
  field (parse_statement env tmp raw) "file" = Some (JStr (basename tmp)) /\
  field (parse_statement env tmp raw) "issuer" = Some (JStr (detect_issuer env (clean_text env raw))) /\
  In (detect_issuer env (clean_text env raw)) SUPPORTED /\
  download_csv (snd (upload env fn tmp raw last)) = ServerError.
Proof.
  intros env fn tmp raw last Hs Hk.
  assert (Hu : snd (upload env fn tmp raw last) = [parse_statement env tmp raw]).
  { destruct (upload_outcome env fn tmp raw last) as [[_ ->] | [Hok _]].
    - reflexivity.
    - rewrite Hs in Hok. cbn [andb] in Hok.
      destruct (text_eqb (detect_issuer env (clean_text env raw)) (T "UNKNOWN")) eqn:E; [|discriminate].
      exfalso. apply Hk. clear -E. revert E. generalize (T "UNKNOWN").
      induction (detect_issuer env (clean_text env raw)) as [|x l IH]; intros [|y u] E;
        try discriminate; [reflexivity|].
      cbn [text_eqb] in E. apply andb_true_iff in E as [E1 E2]. apply Z.eqb_eq in E1.
      rewrite E1, (IH u E2). reflexivity. }
  rewrite Hu. split; [reflexivity|]. split; [apply parse_statement_file|].
  split; [apply parse_statement_issuer|]. split; [|reflexivity].
  destruct (detect_issuer_cases env (clean_text env raw)) as [E|Hin]; [contradiction | exact Hin].
Qed.

Lemma upload_then_downloads_witness :
  download_json (snd (upload env0 (T "Statement.PDF") (T "/tmp/tmpab12.pdf") (T "HDFC Bank statement") []))
    = JsonBody [parse_statement env0 (T "/tmp/tmpab12.pdf") (T "HDFC Bank statement")] /\
  field (parse_statement env0 (T "/tmp/tmpab12.pdf") (T "HDFC Bank statement")) "file"
    = Some (JStr (T "tmpab12.pdf")) /\
  download_csv (snd (upload env0 (T "Statement.PDF") (T "/tmp/tmpab12.pdf") (T "HDFC Bank statement") []))
    = ServerError.
Proof.
  destruct (upload_then_downloads env0 (T "Statement.PDF") (T "/tmp/tmpab12.pdf") (T "HDFC Bank statement") [])
    as (Hj & Hf & _ & _ & Hc); [vm_compute; reflexivity | vm_compute; discriminate |].
  split; [exact Hj|]. split; [|exact Hc]. rewrite Hf. vm_compute. reflexivity.
Defined.

Lemma split_on_nonempty : forall sep u, split_on sep u <> [].
Proof.
  intros sep u. destruct u as [|c u]; cbn [split_on]; [discriminate|].
  destruct (Z.eqb c sep); [discriminate|]. destruct (split_on sep u); discriminate.
Qed.

Lemma split_on_app_sep : forall sep a b, split_on sep (a ++ sep :: b) = split_on sep a ++ split_on sep b.
Proof.
  intros sep a b. induction a as [|c a IH]; cbn [app split_on].
  - rewrite Z.eqb_refl. reflexivity.
  - destruct (Z.eqb c sep); [rewrite IH; reflexivity|]. rewrite IH.
    destruct (split_on sep a) as [|l ls] eqn:E; [exfalso; exact (split_on_nonempty sep a E)|].
    reflexivity.
Qed.

Lemma basename_join : forall root f, ~ In 47 f -> basename (path_join root f) = f.
Proof.
  intros root f Hf.
  assert (Hb : forall pre, basename (pre ++ 47 :: f) = f).
  { intros pre. unfold basename. rewrite split_on_app_sep, (split_on_no_sep 47 f Hf).
    apply last_last. }
  unfold path_join. destruct f as [|c f'] eqn:Ef.
  - cbn [prefixb]. destruct root as [|r rs]; [reflexivity|].
    destruct (Z.eqb (last (r :: rs) 0) 47) eqn:E.
    + apply Z.eqb_eq in E. rewrite app_nil_r.
      rewrite (app_removelast_last 0 (l := r :: rs)) by discriminate. rewrite E. apply Hb.
    + apply Hb.
  - cbn [prefixb]. destruct (Z.eqb 47 c) eqn:Ec.
    + apply Z.eqb_eq in Ec. exfalso. apply Hf. left. symmetry. exact Ec.
    + cbn [andb]. destruct root as [|r rs].
      * unfold basename. rewrite (split_on_no_sep 47 _ Hf). reflexivity.
      * destruct (Z.eqb (last (r :: rs) 0) 47) eqn:E.
        -- apply Z.eqb_eq in E.
           rewrite (app_removelast_last 0 (l := r :: rs)) by discriminate. rewrite E, <- app_assoc. apply Hb.
        -- apply Hb.
Qed.

(** [process_zip] gives one result per extracted file whose lower-cased name
    ends in [.pdf], in [os.walk] order, each recording that file's name
    under ["file"]; other files are skipped *)
Theorem process_zip_pdf_names : forall env fs,
  (forall root f raw, In (root, f, raw) fs -> ~ In 47 f) ->
  map (fun r => field r "file") (process_zip env (Some fs)) =
  map (fun '(_, f, _) => Some (JStr f)) (filter (fun '(_, f, _) => endswith (lower env f) (T ".pdf")) fs).
Proof.
  intros env fs. unfold process_zip. induction fs as [|[[root f] raw] fs IH]; intros Hf; [reflexivity|].
  cbn [flat_map filter]. destruct (endswith (lower env f) (T ".pdf")).
  - cbn [app map]. rewrite parse_statement_file, basename_join by (apply (Hf root f raw); left; reflexivity).
    f_equal. apply IH. intros r g w H. apply (Hf r g w). right. exact H.
  - apply IH. intros r g w H. apply (Hf r g w). right. exact H.
Qed.

Lemma process_zip_pdf_names_witness :
  map (fun r => field r "file")
    (process_zip env0 (Some [(T "/tmp/z", T "a.PDF", T "HDFC"); (T "/tmp/z/sub", T "notes.txt", T "x");
                             (T "/tmp/z/sub", T "b.pdf", T "SBI")])) =
  [Some (JStr (T "a.PDF")); Some (JStr (T "b.pdf"))].
Proof.
  rewrite process_zip_pdf_names.
  - vm_compute. reflexivity.
  - intros r f w H. vm_compute in H.
    repeat destruct H as [H|H]; try (injection H as <- <- <-; vm_compute; intuition discriminate).
    destruct H.
Defined.


(** a [.zip] upload that yields no result (no PDF in it, or an archive that
    cannot be extracted) is accepted and empties [LAST_RESULTS], so both
    downloads then answer 404 *)
Theorem empty_archive_clears_results : forall env fn walk last,
  endswith (lower env fn) (T ".zip") = true -> process_zip env walk = [] ->
  parse_zip env fn walk last = (ResultPage [] true, []) /\
  download_json (snd (parse_zip env fn walk last)) = NotFound (T "No results available") /\
  download_csv (snd (parse_zip env fn walk last)) = NotFound (T "No results available").
Proof.
  intros env fn walk last Hz Hp.
  assert (H : parse_zip env fn walk last = (ResultPage [] true, [])).
  { unfold parse_zip. rewrite Hz, Hp. reflexivity. }
  rewrite H. split; [reflexivity|]. split; reflexivity.
Qed.

Lemma empty_archive_clears_results_witness :
  parse_zip env0 (T "Bills.ZIP") (Some [(T "/tmp/z", T "readme.txt", T "HDFC")]) [[("file", JStr (T "a.pdf"))]%string] =
    (ResultPage [] true, []) /\
  download_json [] = NotFound (T "No results available").
Proof.
  destruct (empty_archive_clears_results env0 (T "Bills.ZIP") (Some [(T "/tmp/z", T "readme.txt", T "HDFC")])
              [[("file", JStr (T "a.pdf"))]%string]) as (H1 & H2 & _);
    [vm_compute; reflexivity | vm_compute; reflexivity |].
  split; [exact H1|]. rewrite H1 in H2. exact H2.
Defined.

Lemma rfind_loop_spec : forall c s i acc,
  (rfind_loop c s i acc = acc /\ ~ In c s) \/
  (exists pre post, s = pre ++ c :: post /\ ~ In c post /\
     rfind_loop c s i acc = i + Z.of_nat (length pre)).
Proof.
  intros c s. induction s as [|x s IH]; intros i acc.
  - left. split; [reflexivity | intros []].
  - change (rfind_loop c (x :: s) i acc) with (rfind_loop c s (i + 1) (if Z.eqb x c then i else acc)).
    destruct (IH (i + 1) (if Z.eqb x c then i else acc)) as [[Hr Hn] | (pre & post & Hs & Hn & Hr)].
    + rewrite Hr. destruct (Z.eqb x c) eqn:E.
      * right. apply Z.eqb_eq in E. subst x. exists [], s. cbn. split; [reflexivity|]. split; [exact Hn | lia].
      * left. split; [reflexivity|]. intros [H|H]; [subst x; rewrite Z.eqb_refl in E; discriminate | exact (Hn H)].
    + right. exists (x :: pre), post. rewrite Hr, Hs. split; [reflexivity|]. split; [exact Hn|].
      cbn [length]. lia.
Qed.

Lemma in_skipn : forall {A} (x : A) k l, In x (skipn k l) -> In x l.
Proof.
  intros A x k l H. rewrite <- (firstn_skipn k l). apply in_or_app. right. exact H.
Qed.

(** [os.path.splitext] cuts a path into a root and an extension that put
    back together give the path; the extension is empty or a ['.'] followed
    by no other ['.'] or ['/'] *)
Theorem splitext_parts : forall p,
  fst (splitext p) ++ snd (splitext p) = p /\
  (snd (splitext p) = [] \/ exists e, snd (splitext p) = 46 :: e /\ ~ In 46 e /\ ~ In 47 e).
Proof.
  intros p. unfold splitext. unfold py_rfind.
  destruct (_ <? _) eqn:Hlt; [|split; [apply app_nil_r | left; reflexivity]].
  destruct (existsb _ _); [|split; [apply app_nil_r | left; reflexivity]].
  cbn [fst snd]. split; [apply firstn_skipn|]. right.
  apply Z.ltb_lt in Hlt.
  destruct (rfind_loop_spec 46 p 0 (-1)) as [[Hd _] | (pre & post & Hp & Hn & Hd)].
  - destruct (rfind_loop_spec 47 p 0 (-1)) as [[Hs _] | (pre2 & post2 & _ & _ & Hs)]; lia.
  - rewrite Hd in *. replace (Z.to_nat (0 + Z.of_nat (length pre))) with (length pre) by lia.
    rewrite Hp, skipn_app, skipn_all, Nat.sub_diag. cbn [app skipn].
    exists post. split; [reflexivity|]. split; [exact Hn|]. intros Hin.
    destruct (rfind_loop_spec 47 p 0 (-1)) as [[Hs Hs2] | (pre2 & post2 & Hp2 & Hn2 & Hs)].
    + apply Hs2. rewrite Hp. apply in_or_app. right. right. exact Hin.
    + rewrite Hs in Hlt. apply Hn2.
      assert (Hpost : post = skipn (S (length pre)) p).
      { rewrite Hp, skipn_app, skipn_all2 by lia. replace (S (length pre) - length pre)%nat with 1%nat by lia.
        reflexivity. }
      assert (Hpost2 : post2 = skipn (S (length pre2)) p).
      { rewrite Hp2, skipn_app, skipn_all2 by lia. replace (S (length pre2) - length pre2)%nat with 1%nat by lia.
        reflexivity. }
      rewrite Hpost2. rewrite Hpost in Hin.
      replace (S (length pre)) with ((length pre - length pre2) + S (length pre2))%nat in Hin by lia.
      rewrite <- skipn_skipn in Hin. exact (in_skipn _ _ _ Hin).
Qed.
